(** * divortio-timeID: the timestamp codec, the SFC32 generator, the
      randomness generator and the identifier composer/parser of
      [src/timeID.js], embedded in Rocq and checked against the
      specification's claims.

    Modelling choices:
    - strings are [string]s of 8-bit characters and are compared with
      [String.compare], code unit by code unit as JavaScript does;
    - 32-bit integers are [Z] with the conversions ToInt32 and ToUint32
      written out, and every bitwise operator applies them as in
      JavaScript;
    - numbers reaching [encodeTime] are NaN, an infinity or a rational;
    - the module-level generator state [_a, _b, _c, _d] is an explicit
      record threaded through [nextInt32], [newRND] and [newID]; the
      properties quantify over every state, so the seeding from the
      clock and [Math.random] is not modelled;
    - the factories' default parameter [dateTime = new Date()] reads the
      clock; what it reads is the argument [now] of [newID], [newTimeID]
      and [newTimeIDr];
    - a thrown TypeError is the [ThrowTypeError] completion, [null] and
      [undefined] results are [None]. *)

From Stdlib Require Import ZArith QArith Qround String Ascii List Lia Bool.
From Equations Require Import Equations.
Import ListNotations.

Local Open Scope Z_scope.

(** ** JavaScript values and primitives used by the library *)

Module JS.

(** A JavaScript number.  Every finite double is a rational, so [Fin]
    over-approximates the finite doubles; the operations the library
    applies to them ([%], multiplication by 2^-6 followed by
    [Math.floor], the 32-bit conversions) are exact on doubles, so they
    are modelled by exact rational arithmetic. *)
Inductive number : Type :=
| NaN
| PosInf
| NegInf
| Fin (q : Q).

(** The values a caller can pass.  [VDate tv] is a Date object whose
    [getTime()] is [tv]; [VObject] stands for every other object. *)
Inductive value : Type :=
| VUndefined
| VNull
| VBool (b : bool)
| VNum (n : number)
| VStr (s : string)
| VDate (tv : number)
| VObject.

(** What an array read or a [+] of such reads evaluates to. *)
Inductive prim : Type :=
| PUndef
| PNaN
| PStr (s : string).

(** Outcome of a call: a normal return or a thrown [TypeError]. *)
Inductive completion (A : Type) : Type :=
| Normal (a : A)
| ThrowTypeError.
Arguments Normal {A} a.
Arguments ThrowTypeError {A}.

(** ToString on the primitives above. *)
Definition to_str (p : prim) : string :=
  match p with
  | PUndef => "undefined"
  | PNaN => "NaN"
  | PStr s => s
  end.

(** The binary [+]: concatenation as soon as one side is a string,
    numeric addition (here always NaN) otherwise. *)
Definition add (p q : prim) : prim :=
  match p, q with
  | PStr a, _ => PStr (a ++ to_str q)
  | _, PStr b => PStr (to_str p ++ b)
  | _, _ => PNaN
  end.

(** ToInt32 and ToUint32 on integers. *)
Definition ToUint32 (x : Z) : Z := x mod 2 ^ 32.

Definition ToInt32 (x : Z) : Z :=
  let u := x mod 2 ^ 32 in
  if 2 ^ 31 <=? u then u - 2 ^ 32 else u.

(** [a | b], [a ^ b], [a & b], [a << n], [a >>> n]. *)
Definition bor (a b : Z) : Z := Z.lor (ToInt32 a) (ToInt32 b).
Definition bxor (a b : Z) : Z := Z.lxor (ToInt32 a) (ToInt32 b).
Definition band (a b : Z) : Z := Z.land (ToInt32 a) (ToInt32 b).
Definition shl (a n : Z) : Z := ToInt32 (Z.shiftl (ToInt32 a) (n mod 32)).
Definition shru (a n : Z) : Z := Z.shiftr (ToUint32 a) (n mod 32).

(** Truncation toward zero of a rational. *)
Definition Qtrunc (q : Q) : Z :=
  if Qle_bool 0 q then Qfloor q else Qceiling q.

(** The 32-bit conversions of a number: NaN and the infinities go to 0. *)
Definition num_ToInt32 (n : number) : Z :=
  match n with
  | Fin q => ToInt32 (Qtrunc q)
  | _ => 0
  end.

Definition num_ToUint32 (n : number) : Z :=
  match n with
  | Fin q => ToUint32 (Qtrunc q)
  | _ => 0
  end.

(** [n & m] and [n >>> k] on a number [n]. *)
Definition num_band (n : number) (m : Z) : Z :=
  Z.land (num_ToInt32 n) (ToInt32 m).

Definition num_shru (n : number) (k : Z) : Z :=
  Z.shiftr (num_ToUint32 n) (k mod 32).

(** [n < 0]. *)
Definition num_ltb0 (n : number) : bool :=
  match n with
  | NaN => false
  | PosInf => false
  | NegInf => true
  | Fin q => negb (Qle_bool 0 q)
  end.

(** [n % 64]: the remainder has the sign of the dividend. *)
Definition num_rem64 (n : number) : number :=
  match n with
  | Fin q => Fin (q - inject_Z (64 * Qtrunc (q * (1 # 64))))
  | _ => NaN
  end.

(** [Math.floor(n * 0.015625)]. *)
Definition num_floor_div64 (n : number) : number :=
  match n with
  | Fin q => Fin (inject_Z (Qfloor (q * (1 # 64))))
  | other => other
  end.

(** [arr[i]] for an integer [i]: [undefined] outside the array. *)
Definition arr_get (arr : list prim) (i : Z) : prim :=
  if i <? 0 then PUndef
  else match nth_error arr (Z.to_nat i) with
       | Some p => p
       | None => PUndef
       end.

(** [arr[n]] for a number [n]: only an integral value names an element. *)
Definition arr_get_num (arr : list prim) (n : number) : prim :=
  match n with
  | Fin q => if Qeq_bool q (inject_Z (Qfloor q))
             then arr_get arr (Qfloor q) else PUndef
  | _ => PUndef
  end.

(** [s.charCodeAt(i)]; [None] is the NaN returned past the end.  Code
    units above 255 behave like 128..255 everywhere in this library
    (only [code > 127] is ever tested), so [ascii] units suffice. *)
Definition charCodeAt (s : string) (i : nat) : option Z :=
  match String.get i s with
  | Some c => Some (Z.of_nat (nat_of_ascii c))
  | None => None
  end.

Fixpoint str_drop (n : nat) (s : string) : string :=
  match n, s with
  | O, _ => s
  | S _, EmptyString => EmptyString
  | S n', String _ s' => str_drop n' s'
  end.

Fixpoint str_take (n : nat) (s : string) : string :=
  match n, s with
  | O, _ => EmptyString
  | S _, EmptyString => EmptyString
  | S n', String c s' => String c (str_take n' s')
  end.

(** [s.substring(start, fin)]: both indices are clamped to the length
    and swapped when out of order. *)
Definition substring (s : string) (start fin : nat) : string :=
  let len := String.length s in
  let a := Nat.min start len in
  let b := Nat.min fin len in
  str_take (Nat.max a b - Nat.min a b) (str_drop (Nat.min a b) s).

(** [s.substring(start)]. *)
Definition substring_from (s : string) (start : nat) : string :=
  substring s start (String.length s).

End JS.

Import JS.

(** ** Dictionary and lookup tables *)

Definition CHAR_DICT_STR : string :=
  "0123456789ABCDEFGHIJKLMNOPQRSTUVWXYZ_abcdefghijklmnopqrstuvwxyz~".

(** [CHAR_DICT_STR.split('')]. *)
Definition CHAR_DICT : list prim :=
  map (fun c => PStr (String c EmptyString)) (list_ascii_of_string CHAR_DICT_STR).

(** Write to a typed array: an index past the end is ignored. *)
Fixpoint list_set {A : Type} (l : list A) (i : nat) (v : A) : list A :=
  match l, i with
  | [], _ => []
  | _ :: l', O => v :: l'
  | x :: l', S i' => x :: list_set l' i' v
  end.

(** [new Int8Array(128).fill(-1)] followed by the loop that stores each
      symbol's index at its character code. *)
Definition ASCII_LOOKUP : list Z :=
  fold_left
    (fun tbl i =>
       match charCodeAt CHAR_DICT_STR i with
       | Some code => list_set tbl (Z.to_nat code) (Z.of_nat i)
       | None => tbl
       end)
    (seq 0 (String.length CHAR_DICT_STR))
    (repeat (-1) 128).

(** [ASCII_LOOKUP[code]]; [None] is [undefined]. *)
Definition ASCII_LOOKUP_get (code : Z) : option Z :=
  if code <? 0 then None else nth_error ASCII_LOOKUP (Z.to_nat code).

(** The 4096-entry table of symbol pairs: entry [i] is the symbol of the
      low six bits followed by the symbol of the next six bits. *)
Definition DOUBLE_CHAR_DICT : list prim :=
  map (fun i : nat =>
         let i := Z.of_nat i in
         let c1 := arr_get CHAR_DICT (band i 63) in
         let c2 := arr_get CHAR_DICT (band (shru i 6) 63) in
         add c1 c2)
      (seq 0 4096).

(** ** PRNG: SFC32 *)

Record sfc32 : Type := mkSfc32 { _a : Z; _b : Z; _c : Z; _d : Z }.

Definition nextInt32 (s : sfc32) : Z * sfc32 :=
  let t := bor (_a s + _b s) 0 in
  let d := bor (_d s + 1) 0 in
  let a := bxor (_b s) (shru (_b s) 9) in
  let b := bor (_c s + shl (_c s) 3) 0 in
  let c := bor (shl (_c s) 21) (shru (_c s) 11) in
  let c := bor (c + t) 0 in
  (bor (t + d) 0, mkSfc32 a b c d).

(** ** Randomness generator *)

Notation "'DCD[' i ']'" := (arr_get DOUBLE_CHAR_DICT i) (at level 0, i at level 200).
Notation "'CD[' i ']'" := (arr_get CHAR_DICT i) (at level 0, i at level 200).

(** Fast path 1 of [newRND]: three draws, six pair lookups. *)
Definition newRND_fast12 (s : sfc32) : prim * sfc32 :=
  let (r, s) := nextInt32 s in
  let str := add DCD[band r 0xFFF] DCD[band (shru r 12) 0xFFF] in
  let (r, s) := nextInt32 s in
  let str := add str (add DCD[band r 0xFFF] DCD[band (shru r 12) 0xFFF]) in
  let (r, s) := nextInt32 s in
  let str := add str (add DCD[band r 0xFFF] DCD[band (shru r 12) 0xFFF]) in
  (str, s).

(** Fast path 2 of [newRND]: five draws of two pairs, a sixth draw for
      the single trailing symbol. *)
Definition newRND_fast21 (s : sfc32) : prim * sfc32 :=
  let (r, s) := nextInt32 s in
  let str := add DCD[band r 0xFFF] DCD[band (shru r 12) 0xFFF] in
  let (r, s) := nextInt32 s in
  let str := add str (add DCD[band r 0xFFF] DCD[band (shru r 12) 0xFFF]) in
  let (r, s) := nextInt32 s in
  let str := add str (add DCD[band r 0xFFF] DCD[band (shru r 12) 0xFFF]) in
  let (r, s) := nextInt32 s in
  let str := add str (add DCD[band r 0xFFF] DCD[band (shru r 12) 0xFFF]) in
  let (r, s) := nextInt32 s in
  let str := add str (add DCD[band r 0xFFF] DCD[band (shru r 12) 0xFFF]) in
  let (r, s) := nextInt32 s in
  let str := add str CD[band r 0x3F] in
  (str, s).

(** The [while (i < len)] loop of the slow path, with [break] as a
      return.  Each iteration that stays in the loop advances [i] by 2
      or 4, so [len - i] decreases. *)
Equations? slow_loop (len : Z) (s : sfc32) (str : prim) (i : Z)
  : prim * sfc32 by wf (Z.to_nat (len - i)) lt :=
  slow_loop len s str i with Z_lt_dec i len := {
    | right _ := (str, s)
    | left _ :=
        let r := fst (nextInt32 s) in
        let s := snd (nextInt32 s) in
        if i + 1 <? len then
          let str := add str DCD[band r 0xFFF] in
          let i := i + 2 in
          if i =? len then (str, s) else
          let r := shru r 12 in
          if i + 1 <? len then
            let str := add str DCD[band r 0xFFF] in
            let i := i + 2 in
            if i =? len then (str, s) else slow_loop len s str i
          else slow_loop len s str i
        else
          (add str CD[band r 0x3F], s)
  }.
Proof. all: lia. Qed.

(** The slow path of [newRND]: clamp the length, then run the loop. *)
Definition newRND_slow (length : Z) (s : sfc32) : prim * sfc32 :=
  let len := if length <? 12 then 12 else length in
  let len := if 1024 <? len then 1024 else len in
  slow_loop len s (PStr "") 0.

Definition newRND (length : Z) (s : sfc32) : prim * sfc32 :=
  if length =? 12 then newRND_fast12 s
  else if length =? 21 then newRND_fast21 s
  else newRND_slow length s.

(** ** Timestamp codec *)

(** The accumulator of [decodeTime]: an integer, or the NaN that adding
      [undefined] would produce. *)
Inductive tsval : Type :=
| TsNaN
| TsInt (z : Z).

(** [ts * 64 + val], where [None] is an [undefined] table read. *)
Definition ts_step (ts : tsval) (val : option Z) : tsval :=
  match ts, val with
  | TsInt z, Some v => TsInt (z * 64 + v)
  | _, _ => TsNaN
  end.

(** [!v]. *)
Definition falsy (v : value) : bool :=
  match v with
  | VUndefined | VNull => true
  | VBool b => negb b
  | VNum NaN => true
  | VNum (Fin q) => Qeq_bool q 0
  | VNum _ => false
  | VStr s => (String.length s =? 0)%nat
  | VDate _ | VObject => false
  end.

(** The [for (let i = 0; i < 8; i++)] loop of [decodeTime], with [n]
      iterations left; [None] is the [return null] inside the loop. *)
Fixpoint decodeTime_loop (n : nat) (tid : string) (i : nat) (ts : tsval)
  : option tsval :=
  match n with
  | O => Some ts
  | S n' =>
      match charCodeAt tid i with
      | Some code =>
          if 127 <? code then None
          else
            let val := ASCII_LOOKUP_get code in
            match val with
            | Some (-1) => None
            | _ => decodeTime_loop n' tid (S i) (ts_step ts val)
            end
      | None =>
          (* code is NaN: both tests are false and the read is undefined *)
          decodeTime_loop n' tid (S i) (ts_step ts None)
      end
  end.

(** [decodeTime(tid)]; [None] is [null]. *)
Definition decodeTime (tid : value) : option tsval :=
  match tid with
  | VStr s =>
      if falsy tid || (String.length s <? 8)%nat then None
      else decodeTime_loop 8 s 0 (TsInt 0)
  | _ => None
  end.

(** [encodeTime(time)]. *)
Definition encodeTime (time : value) : completion prim :=
  let ts := match time with
            | VNum n => Some n
            | VDate tv => Some tv
            | _ => None
            end in
  match ts with
  | None => ThrowTypeError
  | Some ts =>
      if num_ltb0 ts then ThrowTypeError
      else
        let c7 := arr_get_num CHAR_DICT (num_rem64 ts) in
        let ts := num_floor_div64 ts in
        let c6 := arr_get_num CHAR_DICT (num_rem64 ts) in
        let ts := num_floor_div64 ts in
        let c5 := CD[num_band ts 0x3F] in let ts := num_shru ts 6 in
        let c4 := CD[band ts 0x3F] in let ts := shru ts 6 in
        let c3 := CD[band ts 0x3F] in let ts := shru ts 6 in
        let c2 := CD[band ts 0x3F] in let ts := shru ts 6 in
        let c1 := CD[band ts 0x3F] in let ts := shru ts 6 in
        let c0 := CD[band ts 0x3F] in
        Normal (add (add (add (add (add (add (add c0 c1) c2) c3) c4) c5) c6) c7)
  end.

(** ** Identifier composer and parser *)

(** [new Date(ts)]: the time value after TimeClip. *)
Definition new_Date (ts : tsval) : tsval :=
  match ts with
  | TsInt z => if 8640000000000000 <? Z.abs z then TsNaN else TsInt z
  | TsNaN => TsNaN
  end.

(** An instance of [TimeIDRandom]; [date] holds the Date's time value. *)
Record TimeIDRandom : Type := mkTimeIDRandom {
  date : tsval;
  time : tsval;
  tID : string;
  randomness : string;
  tIDr : string
}.

(** The constructor of [TimeIDRandom] (with the one of [TimeID]). *)
Definition new_TimeIDRandom (date time : tsval) (tid randomness delimiter : string)
  : TimeIDRandom :=
  mkTimeIDRandom date time tid randomness (tid ++ delimiter ++ randomness).

(** The default initializer [dateTime = new Date()] of the factories:
      it replaces [undefined], and nothing else, by a Date of the current
      time, whose time value is [now]. *)
Definition default_dateTime (now : number) (dateTime : value) : value :=
  match dateTime with
  | VUndefined => VDate now
  | _ => dateTime
  end.

(** [TimeIDRandom.newID(dateTime = new Date(), length, delimiter)]: the
      encoding is evaluated first, so a throw leaves the generator
      untouched.  [now] is what the clock reads at the call. *)
Definition newID (now : number) (dateTime : value) (length : Z)
  (delimiter : string) (s : sfc32) : completion prim * sfc32 :=
  let dateTime := default_dateTime now dateTime in
  match encodeTime dateTime with
  | ThrowTypeError => (ThrowTypeError, s)
  | Normal tid =>
      let (rnd, s) := newRND length s in
      (Normal (add (add tid (PStr delimiter)) rnd), s)
  end.

(** [TimeIDRandom.decodeTimeIDr(tidr, delimiter)]; [Normal None] is the
      [undefined] result. *)
Definition decodeTimeIDr (tidr : value) (delimiter : string)
  : completion (option TimeIDRandom) :=
  match tidr with
  | VStr s =>
      if (8 <=? String.length s)%nat then
        let timePart := substring s 0 8 in
        match decodeTime (VStr timePart) with
        | Some ts =>
            let startIndex := (8 + String.length delimiter)%nat in
            if (0 <? String.length delimiter)%nat
               && negb (String.eqb (substring s 8 startIndex) delimiter)
            then Normal None
            else
              let randomness := substring_from s startIndex in
              Normal (Some (new_TimeIDRandom (new_Date ts) ts timePart
                              randomness delimiter))
        | None => Normal None
        end
      else ThrowTypeError
  | _ => Normal None
  end.

(** ** The generator's advance as the specification words it

    A second definition, on four unsigned 32-bit words, to be compared
    with [nextInt32]. *)

Definition rotl32 (x k : Z) : Z :=
  Z.lor (Z.shiftl x k mod 2 ^ 32) (Z.shiftr x (32 - k)).

Definition spec_advance (s : sfc32) : Z * sfc32 :=
  let t := (_a s + _b s) mod 2 ^ 32 in
  let d := (_d s + 1) mod 2 ^ 32 in
  let a := Z.lxor (_b s) (Z.shiftr (_b s) 9) in
  let b := (_c s + Z.shiftl (_c s) 3) mod 2 ^ 32 in
  let c := (rotl32 (_c s) 21 + t) mod 2 ^ 32 in
  ((t + d) mod 2 ^ 32, mkSfc32 a b c d).

(** The state read as four unsigned 32-bit words. *)
Definition unsigned_state (s : sfc32) : sfc32 :=
  mkSfc32 (ToUint32 (_a s)) (ToUint32 (_b s)) (ToUint32 (_c s)) (ToUint32 (_d s)).

(** Four unsigned 32-bit words as [| 0] holds them: the signed 32-bit
      integers with the same bits. *)
Definition signed_state (s : sfc32) : sfc32 :=
  mkSfc32 (ToInt32 (_a s)) (ToInt32 (_b s)) (ToInt32 (_c s)) (ToInt32 (_d s)).

(** [clamp(n, lo, hi)]: values below [lo] raised to [lo], above [hi] capped. *)
Definition clamp (n lo hi : Z) : Z :=
  if n <? lo then lo else if hi <? n then hi else n.

(** The symbol at index [i] of the alphabet. *)
Definition sym (i : Z) : ascii :=
  nth (Z.to_nat i) (list_ascii_of_string CHAR_DICT_STR) zero.

(** An integer-valued number passed as a JavaScript value. *)
Definition int_value (t : Z) : value := VNum (Fin (inject_Z t)).

(** A finite, non-negative, integer-valued number. *)
Definition finite_nonneg_integer (n : number) : bool :=
  match n with
  | Fin q => Qle_bool 0 q && Qeq_bool q (inject_Z (Qfloor q))
  | _ => false
  end.

(** The inputs the specification's codec section calls valid: such a
      number, or a Date holding one. *)
Definition valid_time_input (v : value) : bool :=
  match v with
  | VNum n | VDate n => finite_nonneg_integer n
  | _ => false
  end.

(** The error contract of [encodeTime] as that section words it, at one
      input: InvalidInput unless the input is valid, a normal return if
      it is. *)
Definition raises_unless_valid (v : value) : Prop :=
  (valid_time_input v = false -> encodeTime v = ThrowTypeError) /\
  (valid_time_input v = true -> exists p, encodeTime v = Normal p).

(** The string of the symbols at the given indices. *)
Fixpoint syms (ds : list Z) : string :=
  match ds with
  | [] => EmptyString
  | d :: ds => String (sym d) (syms ds)
  end.

(** The number a sequence of base-64 digits denotes, most significant
      first, continuing from [acc]. *)
Definition horner (ds : list Z) (acc : Z) : Z :=
  fold_left (fun a d => a * 64 + d) ds acc.

(** The eight symbol indices [encodeTime] computes for a non-negative
      integer: two by division, then six from what [>>>] keeps, the low
      32 bits of [t / 4096]. *)
Definition encode_digits (t : Z) : list Z :=
  let u := t / 64 / 64 in
  let ts := (u mod 2 ^ 32) / 64 in
  [ts / 64 / 64 / 64 / 64 mod 64; ts / 64 / 64 / 64 mod 64;
   ts / 64 / 64 mod 64; ts / 64 mod 64; ts mod 64;
   u mod 64; t / 64 mod 64; t mod 64].

(** An index into the alphabet. *)
Definition is_digit (d : Z) : Prop := 0 <= d < 64.

(** [p] is a string of exactly [n] symbols of the alphabet. *)
Definition str_of_len (p : prim) (n : Z) : Prop :=
  exists ds, p = PStr (syms ds) /\ Forall is_digit ds /\
             Z.of_nat (Datatypes.length ds) = n.

(** ** The rest of the library: seeding, legacy map, object factories *)

(** [n | m] on a number [n]. *)
Definition num_bor (n : number) (m : Z) : Z :=
  Z.lor (num_ToInt32 n) (ToInt32 m).

(** [n > 0]. *)
Definition num_gtb0 (n : number) : bool :=
  match n with
  | NaN => false
  | PosInf => true
  | NegInf => false
  | Fin q => negb (Qle_bool q 0)
  end.

(** The body of the warm-up loop of [seedSFC32]: the statements of
      [nextInt32] without its [return]. *)
Definition warm_up_step (s : sfc32) : sfc32 :=
  let t := bor (_a s + _b s) 0 in
  let d := bor (_d s + 1) 0 in
  let a := bxor (_b s) (shru (_b s) 9) in
  let b := bor (_c s + shl (_c s) 3) 0 in
  let c := bor (shl (_c s) 21) (shru (_c s) 11) in
  let c := bor (c + t) 0 in
  mkSfc32 a b c d.

(** [for (let i = 0; i < 15; i++)] with [n] iterations left. *)
Fixpoint warm_up (n : nat) (s : sfc32) : sfc32 :=
  match n with
  | O => s
  | S n' => warm_up n' (warm_up_step s)
  end.

(** [seedSFC32], as a function of what it reads from the environment:
      [now] is [Date.now()], [rb] and [rc] are the two products
      [Math.random() * 0xFFFFFFFF]. *)
Definition seedSFC32 (now rb rc : number) : sfc32 :=
  warm_up 15 (mkSfc32 (num_shru now 0) (num_bor rb 0) (num_bor rc 0) 1).

(** The generator state after [n] successive calls of [nextInt32]. *)
Fixpoint after_draws (n : nat) (s : sfc32) : sfc32 :=
  match n with
  | O => s
  | S n' => after_draws n' (snd (nextInt32 s))
  end.

(** The number of calls of [nextInt32] the slow path's loop makes for
      [m] symbols: one per four symbols, one more for a remainder of
      one or two, two more for a remainder of three. *)
Definition draws_for (m : Z) : nat :=
  Z.to_nat (m / 4 + (if m mod 4 =? 0 then 0 else if m mod 4 =? 3 then 2 else 1)).

(** [CHAR_MAP], the legacy object filled by the loop that fills
      [ASCII_LOOKUP], as the list of its own properties: an assignment
      replaces an existing own property or adds one.  What the object
      inherits from [Object.prototype] is not part of the list. *)
Fixpoint obj_set (o : list (string * Z)) (k : string) (v : Z) : list (string * Z) :=
  match o with
  | [] => [(k, v)]
  | (k', v') :: o' =>
      if String.eqb k' k then (k, v) :: o' else (k', v') :: obj_set o' k v
  end.

(** The value of the own property [k] of [o]; [None] when [o] has no
      own property of that name. *)
Fixpoint obj_get (o : list (string * Z)) (k : string) : option Z :=
  match o with
  | [] => None
  | (k', v) :: o' => if String.eqb k' k then Some v else obj_get o' k
  end.

Definition CHAR_MAP : list (string * Z) :=
  fold_left
    (fun o i =>
       match String.get i CHAR_DICT_STR with
       | Some char => obj_set o (String char EmptyString) (Z.of_nat i)
       | None => o
       end)
    (seq 0 (String.length CHAR_DICT_STR))
    [].

(** A decoded timestamp as a number. *)
Definition ts_number (ts : tsval) : number :=
  match ts with
  | TsNaN => NaN
  | TsInt z => Fin (inject_Z z)
  end.

(** [new Date(n)] for a number [n]: the time value after TimeClip. *)
Definition new_Date_num (n : number) : number :=
  match n with
  | Fin q =>
      if Qle_bool (inject_Z (-8640000000000000)) q
         && Qle_bool q (inject_Z 8640000000000000)
      then Fin (inject_Z (Qtrunc q)) else NaN
  | _ => NaN
  end.

(** An instance of [TimeID]; [tid_date] holds the Date's time value. *)
Record TimeID : Type := mkTimeID {
  tid_date : number;
  tid_time : number;
  tid_tID : prim
}.

(** An instance of [TimeIDRandom] as the factory builds it. *)
Record TimeIDr : Type := mkTimeIDr {
  r_date : number;
  r_time : number;
  r_tID : prim;
  r_randomness : prim;
  r_tIDr : prim
}.

(** The constructor of [TimeIDRandom] on the factory's arguments. *)
Definition new_TimeIDr (date time : number) (tid randomness : prim)
  (delimiter : string) : TimeIDr :=
  mkTimeIDr date time tid randomness (add (add tid (PStr delimiter)) randomness).

(** [TimeID.newTimeID(dateTime = new Date())]; [now] is what the clock
      reads at the call. *)
Definition newTimeID (now : number) (dateTime : value) : completion TimeID :=
  let dateTime := default_dateTime now dateTime in
  match dateTime with
  | VDate tv =>
      match encodeTime (VNum tv) with
      | Normal tid => Normal (mkTimeID tv tv tid)
      | ThrowTypeError => ThrowTypeError
      end
  | VNum n =>
      if num_gtb0 n then
        match encodeTime (VNum n) with
        | Normal tid => Normal (mkTimeID (new_Date_num n) n tid)
        | ThrowTypeError => ThrowTypeError
        end
      else ThrowTypeError
  | _ => ThrowTypeError
  end.

(** [TimeID.decodeTimeID(tid)]; [None] is the [undefined] result.  The
      [tID] field keeps the whole argument, which is a string whenever
      [decodeTime] returned a value. *)
Definition decodeTimeID (tid : value) : option TimeID :=
  match decodeTime tid with
  | Some ts =>
      match tid with
      | VStr s => Some (mkTimeID (ts_number (new_Date ts)) (ts_number ts) (PStr s))
      | _ => None
      end
  | None => None
  end.

(** [TimeIDRandom.newTimeIDr(dateTime = new Date(), length, delimiter)]:
      the constructor's arguments are evaluated left to right, the
      encoding before the randomness.  [now] is what the clock reads at
      the call. *)
Definition newTimeIDr (now : number) (dateTime : value) (length : Z)
  (delimiter : string) (s : sfc32) : completion TimeIDr * sfc32 :=
  let dateTime := default_dateTime now dateTime in
  match dateTime with
  | VDate tv =>
      match encodeTime (VNum tv) with
      | Normal tid =>
          let (rnd, s) := newRND length s in
          (Normal (new_TimeIDr tv tv tid rnd delimiter), s)
      | ThrowTypeError => (ThrowTypeError, s)
      end
  | VNum n =>
      if num_gtb0 n then
        match encodeTime (VNum n) with
        | Normal tid =>
            let (rnd, s) := newRND length s in
            (Normal (new_TimeIDr (new_Date_num n) n tid rnd delimiter), s)
        | ThrowTypeError => (ThrowTypeError, s)
        end
      else (ThrowTypeError, s)
  | _ => (ThrowTypeError, s)
  end.

(** A signed 32-bit integer. *)
Definition is_int32 (x : Z) : Prop := - 2 ^ 31 <= x < 2 ^ 31.

(** The four symbol indices the generator takes from one draw: bits
      0-5, 6-11, 12-17 and 18-23 of the draw read as an unsigned word. *)
Definition draw_digits (r : Z) : list Z :=
  let u := ToUint32 r in
  [u mod 64; u / 64 mod 64; u / 4096 mod 64; u / 262144 mod 64].

(** * Properties *)

(** ** 32-bit arithmetic *)

Section Bits32.

Lemma ToUint32_range x : 0 <= ToUint32 x < 2 ^ 32.
Proof. unfold ToUint32. apply Z.mod_pos_bound. lia. Qed.

Lemma ToInt32_range x : - 2 ^ 31 <= ToInt32 x < 2 ^ 31.
Proof.
  unfold ToInt32. pose proof (Z.mod_pos_bound x (2 ^ 32) ltac:(lia)).
  destruct (Z.leb_spec (2 ^ 31) (x mod 2 ^ 32)); lia.
Qed.

Lemma ToUint32_ToInt32 x : ToUint32 (ToInt32 x) = ToUint32 x.
Proof.
  unfold ToUint32, ToInt32.
  destruct (Z.leb_spec (2 ^ 31) (x mod 2 ^ 32)).
  - replace (x mod 2 ^ 32 - 2 ^ 32) with (x mod 2 ^ 32 + (-1) * 2 ^ 32) by lia.
    rewrite Z_mod_plus_full. apply Z.mod_mod. lia.
  - apply Z.mod_mod. lia.
Qed.

Lemma ToUint32_small x : 0 <= x < 2 ^ 32 -> ToUint32 x = x.
Proof. intros. unfold ToUint32. apply Z.mod_small. assumption. Qed.

Lemma ToUint32_idem x : ToUint32 (ToUint32 x) = ToUint32 x.
Proof. apply ToUint32_small, ToUint32_range. Qed.

Lemma ToUint32_land x : ToUint32 x = Z.land x (Z.ones 32).
Proof. unfold ToUint32. rewrite Z.land_ones by lia. reflexivity. Qed.

Lemma ToUint32_add x y :
  ToUint32 (x + y) = (ToUint32 x + ToUint32 y) mod 2 ^ 32.
Proof. unfold ToUint32. apply Z.add_mod. lia. Qed.

Lemma ToUint32_mul x y :
  ToUint32 (x * y) = (ToUint32 x * ToUint32 y) mod 2 ^ 32.
Proof. unfold ToUint32. apply Z.mul_mod. lia. Qed.

Lemma ToUint32_lxor x y :
  ToUint32 (Z.lxor x y) = Z.lxor (ToUint32 x) (ToUint32 y).
Proof.
  rewrite !ToUint32_land. apply Z.bits_inj'. intros n Hn.
  rewrite Z.lxor_spec, !Z.land_spec, Z.lxor_spec.
  destruct (Z.testbit (Z.ones 32) n); rewrite ?andb_true_r, ?andb_false_r; reflexivity.
Qed.

Lemma ToUint32_lor x y :
  ToUint32 (Z.lor x y) = Z.lor (ToUint32 x) (ToUint32 y).
Proof. rewrite !ToUint32_land. apply Z.land_lor_distr_l. Qed.

Lemma bor_0 x : bor x 0 = ToInt32 x.
Proof. unfold bor. change (ToInt32 0) with 0. apply Z.lor_0_r. Qed.

Lemma shiftr_small x n : 0 <= x < 2 ^ 32 -> 0 <= n -> 0 <= Z.shiftr x n < 2 ^ 32.
Proof.
  intros Hx Hn. rewrite Z.shiftr_div_pow2 by assumption.
  assert (0 < 2 ^ n) by (apply Z.pow_pos_nonneg; lia).
  split.
  - apply Z.div_pos; lia.
  - apply Z.le_lt_trans with x; [apply Z.div_le_upper_bound; nia | lia].
Qed.

Lemma ToUint32_shru x n : 0 <= n < 32 ->
  ToUint32 (shru x n) = Z.shiftr (ToUint32 x) n.
Proof.
  intros Hn. unfold shru. rewrite (Z.mod_small n 32) by lia.
  apply ToUint32_small, shiftr_small; [apply ToUint32_range | lia].
Qed.

Lemma ToUint32_shl x n : 0 <= n < 32 ->
  ToUint32 (shl x n) = Z.shiftl (ToUint32 x) n mod 2 ^ 32.
Proof.
  intros Hn. unfold shl. rewrite (Z.mod_small n 32) by lia.
  rewrite ToUint32_ToInt32, !Z.shiftl_mul_pow2 by lia.
  rewrite ToUint32_mul, ToUint32_ToInt32.
  unfold ToUint32. rewrite Z.mul_mod_idemp_r by lia. reflexivity.
Qed.

Lemma ToInt32_mod x m : (m | 2 ^ 32) -> ToInt32 x mod m = x mod m.
Proof.
  intros Hm.
  rewrite <- (Z.mod_mod_divide (ToInt32 x) (2 ^ 32) m Hm).
  fold (ToUint32 (ToInt32 x)). rewrite ToUint32_ToInt32. unfold ToUint32.
  apply Z.mod_mod_divide, Hm.
Qed.

(** Masking with [2^k - 1] keeps the low [k] bits, whatever the sign. *)
Lemma band_63 x : band x 63 = x mod 64.
Proof.
  unfold band. change (ToInt32 63) with (Z.ones 6).
  rewrite Z.land_ones by lia. change (2 ^ 6) with 64.
  apply ToInt32_mod. exists (2 ^ 26). reflexivity.
Qed.

Lemma band_4095 x : band x 4095 = x mod 4096.
Proof.
  unfold band. change (ToInt32 4095) with (Z.ones 12).
  rewrite Z.land_ones by lia. change (2 ^ 12) with 4096.
  apply ToInt32_mod. exists (2 ^ 20). reflexivity.
Qed.

End Bits32.

(** ** PRNG *)

Lemma unsigned_state_id s :
  0 <= _a s < 2 ^ 32 -> 0 <= _b s < 2 ^ 32 ->
  0 <= _c s < 2 ^ 32 -> 0 <= _d s < 2 ^ 32 ->
  unsigned_state s = s.
Proof.
  destruct s as [a b c d]; simpl; intros.
  unfold unsigned_state; simpl. rewrite !ToUint32_small by assumption. reflexivity.
Qed.

(** The bits of the draw and of the new state are those of the
    specification's advance. *)
Lemma nextInt32_unsigned_view (s : sfc32) :
  ToUint32 (fst (nextInt32 s)) = fst (spec_advance (unsigned_state s)) /\
  unsigned_state (snd (nextInt32 s)) = snd (spec_advance (unsigned_state s)).
Proof.
  destruct s as [a b c d].
  unfold nextInt32, spec_advance, unsigned_state, rotl32; cbn [fst snd _a _b _c _d].
  rewrite !bor_0.
  assert (Ht : ToUint32 (ToInt32 (a + b)) = (ToUint32 a + ToUint32 b) mod 2 ^ 32)
    by (rewrite ToUint32_ToInt32; apply ToUint32_add).
  assert (Hd : ToUint32 (ToInt32 (d + 1)) = (ToUint32 d + 1) mod 2 ^ 32).
  { rewrite ToUint32_ToInt32, ToUint32_add. unfold ToUint32 at 2.
    rewrite Z.add_mod_idemp_r by lia. reflexivity. }
  split.
  - rewrite ToUint32_ToInt32, ToUint32_add, Ht, Hd. reflexivity.
  - f_equal.
    + unfold bxor. rewrite ToUint32_lxor, !ToUint32_ToInt32.
      rewrite ToUint32_shru by lia. reflexivity.
    + rewrite ToUint32_ToInt32, ToUint32_add, ToUint32_shl by lia.
      unfold ToUint32. rewrite Z.add_mod_idemp_r by lia. reflexivity.
    + rewrite ToUint32_ToInt32, ToUint32_add, Ht.
      f_equal. f_equal. unfold bor.
      rewrite ToUint32_lor, !ToUint32_ToInt32.
      rewrite ToUint32_shl, ToUint32_shru by lia. reflexivity.
    + exact Hd.
Qed.

(** ** Strings and [+] *)

Lemma str_length_app (a b : string) :
  String.length (a ++ b) = (String.length a + String.length b)%nat.
Proof. induction a as [|c a IH]; simpl; [reflexivity | rewrite IH; reflexivity]. Qed.

Lemma str_app_assoc (a b c : string) : ((a ++ b) ++ c = a ++ (b ++ c))%string.
Proof. induction a as [|x a IH]; simpl; [reflexivity | rewrite IH; reflexivity]. Qed.


Lemma syms_length ds : String.length (syms ds) = Datatypes.length ds.
Proof. induction ds as [|d ds IH]; simpl; [reflexivity | rewrite IH; reflexivity]. Qed.

Lemma syms_app ds1 ds2 : syms (ds1 ++ ds2) = (syms ds1 ++ syms ds2)%string.
Proof. induction ds1 as [|d ds1 IH]; simpl; [reflexivity | rewrite IH; reflexivity]. Qed.

Lemma str_of_len_length p n :
  str_of_len p n ->
  exists x, p = PStr x /\ Z.of_nat (String.length x) = n.
Proof.
  intros [ds [-> [_ Hl]]]. exists (syms ds). split; [reflexivity |].
  rewrite syms_length. exact Hl.
Qed.

Lemma str_of_len_add p q n m :
  str_of_len p n -> str_of_len q m -> str_of_len (add p q) (n + m).
Proof.
  intros [x [-> [Hx Lx]]] [y [-> [Hy Ly]]]. exists (x ++ y)%list.
  split; [cbn [add to_str]; rewrite syms_app; reflexivity |].
  split; [apply Forall_app; split; assumption |].
  rewrite length_app. lia.
Qed.

Lemma add_assoc_str p q r n m :
  str_of_len p n -> str_of_len q m -> add p (add q r) = add (add p q) r.
Proof.
  intros [x [-> _]] [y [-> _]]. simpl. rewrite str_app_assoc. reflexivity.
Qed.

Lemma add_empty_l p n : str_of_len p n -> add (PStr "") p = p.
Proof. intros [x [-> _]]. reflexivity. Qed.

(** ** Lookup tables *)

Lemma CD_sym i : 0 <= i < 64 -> CD[i] = PStr (String (sym i) EmptyString).
Proof.
  intros Hi. unfold arr_get. destruct (Z.ltb_spec i 0); [lia |].
  unfold CHAR_DICT. rewrite nth_error_map.
  rewrite (nth_error_nth' _ zero).
  - reflexivity.
  - change (Datatypes.length (list_ascii_of_string CHAR_DICT_STR)) with 64%nat. lia.
Qed.

Lemma shru_small x n : 0 <= x < 2 ^ 32 -> 0 <= n < 32 -> shru x n = x / 2 ^ n.
Proof.
  intros Hx Hn. unfold shru. rewrite (Z.mod_small n 32), ToUint32_small by lia.
  apply Z.shiftr_div_pow2. lia.
Qed.

Lemma DCD_pair i : 0 <= i < 4096 ->
  DCD[i] = PStr (String (sym (i mod 64)) (String (sym ((i / 64) mod 64)) EmptyString)).
Proof.
  intros Hi. unfold arr_get. destruct (Z.ltb_spec i 0); [lia |].
  unfold DOUBLE_CHAR_DICT. rewrite nth_error_map, nth_error_seq.
  destruct (Nat.ltb_spec (Z.to_nat i) 4096); [| lia].
  cbn [option_map Nat.add]. rewrite Z2Nat.id by lia.
  rewrite !band_63, shru_small by lia. change (2 ^ 6) with 64.
  rewrite !CD_sym by (apply Z.mod_pos_bound; lia).
  reflexivity.
Qed.

Lemma CD_band_len r : str_of_len CD[band r 63] 1.
Proof.
  rewrite band_63, CD_sym by (apply Z.mod_pos_bound; lia).
  exists [r mod 64]. split; [reflexivity |]. split; [| reflexivity].
  repeat constructor; apply Z.mod_pos_bound; lia.
Qed.

Lemma DCD_band_len r : str_of_len DCD[band r 4095] 2.
Proof.
  rewrite band_4095, DCD_pair by (apply Z.mod_pos_bound; lia).
  exists [(r mod 4096) mod 64; (r mod 4096 / 64) mod 64].
  split; [reflexivity |]. split; [| reflexivity].
  repeat constructor; apply Z.mod_pos_bound; lia.
Qed.

(** ** Randomness generator *)

(** One iteration of the slow path's loop. *)
Lemma slow_loop_iteration len s str i :
  slow_loop len s str i =
  if i <? len then
    let r := fst (nextInt32 s) in
    let s := snd (nextInt32 s) in
    if i + 1 <? len then
      let str := add str DCD[band r 0xFFF] in
      let i := i + 2 in
      if i =? len then (str, s) else
      let r := shru r 12 in
      if i + 1 <? len then
        let str := add str DCD[band r 0xFFF] in
        let i := i + 2 in
        if i =? len then (str, s) else slow_loop len s str i
      else slow_loop len s str i
    else
      (add str CD[band r 0x3F], s)
  else (str, s).
Proof.
  rewrite slow_loop_equation_1.
  destruct (Z_lt_dec i len) as [H | H]; simp slow_loop.
  - destruct (Z.ltb_spec i len); [reflexivity | lia].
  - destruct (Z.ltb_spec i len); [lia | reflexivity].
Qed.

(** A draw that is followed by at least one more symbol yields four
    symbols and the loop goes on. *)
Lemma slow_loop_four len s str i j :
  j = i + 4 -> j < len ->
  slow_loop len s str i =
  slow_loop len (snd (nextInt32 s))
    (add (add str DCD[band (fst (nextInt32 s)) 0xFFF])
         DCD[band (shru (fst (nextInt32 s)) 12) 0xFFF]) j.
Proof.
  intros -> Hj. rewrite slow_loop_iteration. cbv zeta.
  destruct (Z.ltb_spec i len); [| lia].
  destruct (Z.ltb_spec (i + 1) len); [| lia].
  destruct (Z.eqb_spec (i + 2) len); [lia |].
  destruct (Z.ltb_spec (i + 2 + 1) len); [| lia].
  destruct (Z.eqb_spec (i + 2 + 2) len); [lia |].
  replace (i + 2 + 2) with (i + 4) by lia. reflexivity.
Qed.

(** The draw that completes the string with four symbols. *)
Lemma slow_loop_last_four len s str i :
  len = i + 4 ->
  slow_loop len s str i =
  (add (add str DCD[band (fst (nextInt32 s)) 0xFFF])
       DCD[band (shru (fst (nextInt32 s)) 12) 0xFFF],
   snd (nextInt32 s)).
Proof.
  intros ->. rewrite slow_loop_iteration. cbv zeta.
  destruct (Z.ltb_spec i (i + 4)); [| lia].
  destruct (Z.ltb_spec (i + 1) (i + 4)); [| lia].
  destruct (Z.eqb_spec (i + 2) (i + 4)); [lia |].
  destruct (Z.ltb_spec (i + 2 + 1) (i + 4)); [| lia].
  destruct (Z.eqb_spec (i + 2 + 2) (i + 4)); [reflexivity | lia].
Qed.

(** The draw that completes the string with one symbol. *)
Lemma slow_loop_last_one len s str i :
  len = i + 1 ->
  slow_loop len s str i =
  (add str CD[band (fst (nextInt32 s)) 0x3F], snd (nextInt32 s)).
Proof.
  intros ->. rewrite slow_loop_iteration. cbv zeta.
  destruct (Z.ltb_spec i (i + 1)); [| lia].
  destruct (Z.ltb_spec (i + 1) (i + 1)); [lia | reflexivity].
Qed.

(** The loop always ends with a string of exactly [len] symbols. *)
Lemma slow_loop_length (k : nat) : forall len s str i,
  (Z.to_nat (len - i) <= k)%nat -> 0 <= i <= len -> str_of_len str i ->
  str_of_len (fst (slow_loop len s str i)) len.
Proof.
  induction k as [|k IH]; intros len s str i Hk Hi Hstr;
    rewrite slow_loop_iteration; cbv zeta.
  - destruct (Z.ltb_spec i len); [lia |].
    replace len with i by lia. exact Hstr.
  - destruct (Z.ltb_spec i len) as [Hlt | Hge];
      [| replace len with i by lia; exact Hstr].
    pose proof (str_of_len_add _ _ _ _ Hstr (DCD_band_len (fst (nextInt32 s)))) as H2.
    pose proof (str_of_len_add _ _ _ _ H2
                  (DCD_band_len (shru (fst (nextInt32 s)) 12))) as H4.
    destruct (Z.ltb_spec (i + 1) len).
    + destruct (Z.eqb_spec (i + 2) len) as [<- |]; [exact H2 |].
      destruct (Z.ltb_spec (i + 2 + 1) len).
      * destruct (Z.eqb_spec (i + 2 + 2) len) as [<- |]; [exact H4 |].
        apply IH; [lia | lia | exact H4].
      * apply IH; [lia | lia | exact H2].
    + replace len with (i + 1) by lia.
      apply str_of_len_add; [exact Hstr | apply CD_band_len].
Qed.

(** The two length adjustments of the slow path compute the clamp. *)
Lemma slow_path_len_clamp n :
  (if 1024 <? (if n <? 12 then 12 else n) then 1024
   else if n <? 12 then 12 else n) = clamp n 12 1024.
Proof.
  unfold clamp. destruct (Z.ltb_spec n 12); [reflexivity |].
  destruct (Z.ltb_spec 1024 n); reflexivity.
Qed.

Lemma clamp_range n lo hi : lo <= hi -> lo <= clamp n lo hi <= hi.
Proof.
  intros H. unfold clamp. destruct (Z.ltb_spec n lo); [lia |].
  destruct (Z.ltb_spec hi n); lia.
Qed.

Lemma newRND_slow_length n s :
  str_of_len (fst (newRND_slow n s)) (clamp n 12 1024).
Proof.
  unfold newRND_slow. cbv zeta. rewrite slow_path_len_clamp.
  pose proof (clamp_range n 12 1024 ltac:(lia)).
  apply (slow_loop_length (Z.to_nat (clamp n 12 1024))); [lia | lia |].
  exists []. split; [reflexivity |]. split; [constructor | reflexivity].
Qed.

(** Lengths of sums of table reads, following the shape of the term. *)
Ltac solve_str_of_len :=
  lazymatch goal with
  | |- str_of_len (add _ _) _ => apply str_of_len_add; solve_str_of_len
  | |- str_of_len (arr_get DOUBLE_CHAR_DICT _) _ => apply DCD_band_len
  | |- str_of_len (arr_get CHAR_DICT _) _ => apply CD_band_len
  end.

Lemma newRND_fast12_length s : str_of_len (fst (newRND_fast12 s)) 12.
Proof.
  unfold newRND_fast12.
  destruct (nextInt32 s) as [r1 s1]. destruct (nextInt32 s1) as [r2 s2].
  destruct (nextInt32 s2) as [r3 s3]. cbn [fst].
  change 12 with (2 + 2 + (2 + 2) + (2 + 2)).
  solve_str_of_len.
Qed.

Lemma newRND_fast21_length s : str_of_len (fst (newRND_fast21 s)) 21.
Proof.
  unfold newRND_fast21.
  destruct (nextInt32 s) as [r1 s1]. destruct (nextInt32 s1) as [r2 s2].
  destruct (nextInt32 s2) as [r3 s3]. destruct (nextInt32 s3) as [r4 s4].
  destruct (nextInt32 s4) as [r5 s5]. destruct (nextInt32 s5) as [r6 s6].
  cbn [fst].
  change 21 with (2 + 2 + (2 + 2) + (2 + 2) + (2 + 2) + (2 + 2) + 1).
  solve_str_of_len.
Qed.

Lemma newRND_length n s : str_of_len (fst (newRND n s)) (clamp n 12 1024).
Proof.
  unfold newRND.
  destruct (Z.eqb_spec n 12) as [-> |]; [apply newRND_fast12_length |].
  destruct (Z.eqb_spec n 21) as [-> |]; [apply newRND_fast21_length |].
  apply newRND_slow_length.
Qed.

(** C5.  For every integer [n] and every generator state, [newRND n]
    returns (it is a total function with no throwing path) a string of
    exactly clamp(n, 12, 1024) symbols of the alphabet; in particular
    [newRND 5] has 12 symbols and [newRND 2000] has 1024. *)
Theorem newRND_returns_clamped_length (s : sfc32) :
  (forall n : Z,
      exists ds, fst (newRND n s) = PStr (syms ds) /\
                 Forall is_digit ds /\
                 Z.of_nat (String.length (syms ds)) = clamp n 12 1024) /\
  (exists str, fst (newRND 5 s) = PStr str /\ String.length str = 12%nat) /\
  (exists str, fst (newRND 2000 s) = PStr str /\ String.length str = 1024%nat).
Proof.
  split; [| split].
  - intros n. destruct (newRND_length n s) as [ds [Hd [Hs Hl]]].
    exists ds. rewrite syms_length. auto.
  - destruct (str_of_len_length _ _ (newRND_length 5 s)) as [x [Hx Hl]].
    exists x. split; [exact Hx |].
    change (clamp 5 12 1024) with 12 in Hl. lia.
  - destruct (str_of_len_length _ _ (newRND_length 2000 s)) as [x [Hx Hl]].
    exists x. split; [exact Hx |].
    change (clamp 2000 12 1024) with 1024 in Hl. lia.
Qed.

(** C9.  From every starting state, the fast path taken by [newRND] for
    length 12, and the one for length 21, returns the same string and
    leaves the generator in the same state as the slow path's batching
    loop run with that length. *)
Theorem newRND_fast_paths_equal_slow_path (s : sfc32) :
  newRND 12 s = newRND_slow 12 s /\ newRND 21 s = newRND_slow 21 s.
Proof.
  split.
  - change (newRND 12 s) with (newRND_fast12 s).
    unfold newRND_slow.
    change (if 1024 <? (if 12 <? 12 then 12 else 12) then 1024
            else if 12 <? 12 then 12 else 12) with 12.
    rewrite (slow_loop_four 12 s (PStr "") 0 4) by lia.
    rewrite (slow_loop_four 12 _ _ 4 8) by lia.
    rewrite (slow_loop_last_four 12 _ _ 8) by lia.
    unfold newRND_fast12.
    destruct (nextInt32 s) as [r1 s1]. cbn [fst snd].
    destruct (nextInt32 s1) as [r2 s2]. cbn [fst snd].
    destruct (nextInt32 s2) as [r3 s3]. cbn [fst snd].
    f_equal.
    rewrite (add_empty_l _ _ (DCD_band_len r1)).
    pose proof (str_of_len_add _ _ _ _ (DCD_band_len r1)
                  (DCD_band_len (shru r1 12))) as A1.
    rewrite (add_assoc_str _ _ _ _ _ A1 (DCD_band_len r2)).
    pose proof (str_of_len_add _ _ _ _
                  (str_of_len_add _ _ _ _ A1 (DCD_band_len r2))
                  (DCD_band_len (shru r2 12))) as A2.
    rewrite (add_assoc_str _ _ _ _ _ A2 (DCD_band_len r3)).
    reflexivity.
  - change (newRND 21 s) with (newRND_fast21 s).
    unfold newRND_slow.
    change (if 1024 <? (if 21 <? 12 then 12 else 21) then 1024
            else if 21 <? 12 then 12 else 21) with 21.
    rewrite (slow_loop_four 21 s (PStr "") 0 4) by lia.
    rewrite (slow_loop_four 21 _ _ 4 8) by lia.
    rewrite (slow_loop_four 21 _ _ 8 12) by lia.
    rewrite (slow_loop_four 21 _ _ 12 16) by lia.
    rewrite (slow_loop_four 21 _ _ 16 20) by lia.
    rewrite (slow_loop_last_one 21 _ _ 20) by lia.
    unfold newRND_fast21.
    destruct (nextInt32 s) as [r1 s1]. cbn [fst snd].
    destruct (nextInt32 s1) as [r2 s2]. cbn [fst snd].
    destruct (nextInt32 s2) as [r3 s3]. cbn [fst snd].
    destruct (nextInt32 s3) as [r4 s4]. cbn [fst snd].
    destruct (nextInt32 s4) as [r5 s5]. cbn [fst snd].
    destruct (nextInt32 s5) as [r6 s6]. cbn [fst snd].
    f_equal. f_equal.
    rewrite (add_empty_l _ _ (DCD_band_len r1)).
    pose proof (str_of_len_add _ _ _ _ (DCD_band_len r1)
                  (DCD_band_len (shru r1 12))) as A1.
    rewrite (add_assoc_str _ _ _ _ _ A1 (DCD_band_len r2)).
    pose proof (str_of_len_add _ _ _ _
                  (str_of_len_add _ _ _ _ A1 (DCD_band_len r2))
                  (DCD_band_len (shru r2 12))) as A2.
    rewrite (add_assoc_str _ _ _ _ _ A2 (DCD_band_len r3)).
    pose proof (str_of_len_add _ _ _ _
                  (str_of_len_add _ _ _ _ A2 (DCD_band_len r3))
                  (DCD_band_len (shru r3 12))) as A3.
    rewrite (add_assoc_str _ _ _ _ _ A3 (DCD_band_len r4)).
    pose proof (str_of_len_add _ _ _ _
                  (str_of_len_add _ _ _ _ A3 (DCD_band_len r4))
                  (DCD_band_len (shru r4 12))) as A4.
    rewrite (add_assoc_str _ _ _ _ _ A4 (DCD_band_len r5)).
    reflexivity.
Qed.

(** ** Timestamp codec: decoding *)

Lemma ASCII_LOOKUP_get_range code v :
  ASCII_LOOKUP_get code = Some v -> -1 <= v < 64.
Proof.
  unfold ASCII_LOOKUP_get. destruct (code <? 0); [discriminate |].
  intros H. apply nth_error_In in H.
  assert (Hall : forallb (fun v => (-1 <=? v) && (v <? 64)) ASCII_LOOKUP = true)
    by (vm_compute; reflexivity).
  rewrite forallb_forall in Hall. specialize (Hall v H).
  apply andb_true_iff in Hall. destruct Hall as [H1 H2].
  apply Z.leb_le in H1. apply Z.ltb_lt in H2. lia.
Qed.

Lemma ASCII_LOOKUP_get_defined code :
  0 <= code <= 127 -> exists v, ASCII_LOOKUP_get code = Some v.
Proof.
  intros H. unfold ASCII_LOOKUP_get. destruct (Z.ltb_spec code 0); [lia |].
  destruct (nth_error ASCII_LOOKUP (Z.to_nat code)) as [v |] eqn:E.
  - exists v. reflexivity.
  - apply nth_error_None in E.
    change (Datatypes.length ASCII_LOOKUP) with 128%nat in E. lia.
Qed.

Lemma get_in_range s : forall i, (i < String.length s)%nat ->
  exists c, String.get i s = Some c.
Proof.
  induction s as [|c s IH]; simpl; intros i Hi; [lia |].
  destruct i as [|i]; [exists c; reflexivity | apply IH; lia].
Qed.

Lemma charCodeAt_in_range s i : (i < String.length s)%nat ->
  exists code, charCodeAt s i = Some code /\ 0 <= code.
Proof.
  intros Hi. destruct (get_in_range s i Hi) as [c Hc].
  unfold charCodeAt. rewrite Hc. eexists. split; [reflexivity | lia].
Qed.

(** The loop accumulates base-64 digits: from an integer below [b] it
    can only return an integer below [b * 64^n]. *)
Lemma decodeTime_loop_range s n : forall i z b r,
  (i + n <= String.length s)%nat -> 0 <= z < b ->
  decodeTime_loop n s i (TsInt z) = Some r ->
  exists z', r = TsInt z' /\ 0 <= z' < b * 64 ^ Z.of_nat n.
Proof.
  induction n as [|n IH]; intros i z b r Hlen Hz H.
  - simpl in H. injection H as <-. exists z. split; [reflexivity | simpl; lia].
  - cbn [decodeTime_loop] in H.
    destruct (charCodeAt_in_range s i ltac:(lia)) as [code [Hc Hpos]].
    rewrite Hc in H.
    destruct (Z.ltb_spec 127 code) as [| Hle]; [discriminate |].
    destruct (ASCII_LOOKUP_get_defined code ltac:(lia)) as [v Hv].
    pose proof (ASCII_LOOKUP_get_range _ _ Hv) as Hr.
    rewrite Hv in H.
    assert (Hstep : decodeTime_loop n s (S i) (TsInt (z * 64 + v)) = Some r).
    { destruct v as [| q | q]; try exact H.
      destruct q; try exact H; discriminate. }
    assert (v <> -1) by (intros ->; discriminate H).
    destruct (IH (S i) (z * 64 + v) (b * 64) r ltac:(lia) ltac:(lia) Hstep)
      as [z' [-> Hz']].
    exists z'. split; [reflexivity |].
    rewrite Nat2Z.inj_succ, Z.pow_succ_r by lia. lia.
Qed.

Lemma decodeTime_range v ts :
  decodeTime v = Some ts -> exists z, ts = TsInt z /\ 0 <= z < 2 ^ 48.
Proof.
  destruct v; try discriminate. cbn [decodeTime]. intros H.
  destruct (falsy (VStr s)); [discriminate |]. cbn [orb] in H.
  destruct (Nat.ltb_spec (String.length s) 8); [discriminate |].
  apply (decodeTime_loop_range s 8 0 0 1) in H; [| lia | lia].
  exact H.
Qed.

(** C10.  Whenever [decodeTime] returns a value rather than [null], the
    value is an integer in [0, 2^48); hence so is the [time] field of
    every object that [decodeTimeIDr] returns. *)
Theorem decoded_timestamp_in_range :
  (forall v ts, decodeTime v = Some ts ->
                exists z, ts = TsInt z /\ 0 <= z < 2 ^ 48) /\
  (forall v delimiter o, decodeTimeIDr v delimiter = Normal (Some o) ->
                exists z, time o = TsInt z /\ 0 <= z < 2 ^ 48).
Proof.
  split; [exact decodeTime_range |].
  intros v delimiter o H. destruct v; try discriminate.
  cbn [decodeTimeIDr] in H.
  destruct (8 <=? String.length s)%nat; [| discriminate].
  destruct (decodeTime (VStr (substring s 0 8))) as [ts |] eqn:E; [| discriminate].
  destruct (_ && _) in H; [discriminate |].
  injection H as <-. cbn [time new_TimeIDRandom].
  exact (decodeTime_range _ _ E).
Qed.

Lemma decoded_timestamp_in_range_witness :
  (exists z, TsInt 281474976710655 = TsInt z /\ 0 <= z < 2 ^ 48) /\
  (exists z, TsInt 1732621943086 = TsInt z /\ 0 <= z < 2 ^ 48).
Proof.
  split.
  - apply (proj1 decoded_timestamp_in_range (VStr "~~~~~~~~")).
    vm_compute. reflexivity.
  - apply (proj2 decoded_timestamp_in_range (VStr "0PDdKC4j-abcdefabcdef") "-"%string
             (new_TimeIDRandom (TsInt 1732621943086) (TsInt 1732621943086)
                "0PDdKC4j" "abcdefabcdef" "-")).
    vm_compute. reflexivity.
Defined.

(** ** Timestamp codec: the error contract of [encodeTime] *)

Lemma encode_sum_is_string c0 c1 c2 c3 c4 c5 c6 c7 n :
  str_of_len c0 n ->
  exists s,
    add (add (add (add (add (add (add c0 c1) c2) c3) c4) c5) c6) c7 = PStr s.
Proof. intros [x [-> _]]. cbn [add]. eexists. reflexivity. Qed.

Lemma num_ltb0_Fin q : num_ltb0 (Fin q) = if Qlt_le_dec q 0 then true else false.
Proof.
  cbn [num_ltb0]. destruct (Qlt_le_dec q 0) as [Hlt | Hle].
  - destruct (Qle_bool 0 q) eqn:E; [| reflexivity].
    apply Qle_bool_iff in E. exfalso. exact (Qlt_not_le _ _ Hlt E).
  - apply Qle_bool_iff in Hle. rewrite Hle. reflexivity.
Qed.

(** Past the guard, [encodeTime] has no throwing path and its result is
    a string, whatever number it was given. *)
Lemma encodeTime_body_returns_string (time : value) (n : number) :
  time = VNum n \/ time = VDate n -> num_ltb0 n = false ->
  exists s, encodeTime time = Normal (PStr s).
Proof.
  intros Hv Hn.
  assert (E : exists c0 c1 c2 c3 c4 c5 c6 c7,
             str_of_len c0 1 /\
             encodeTime time =
             Normal (add (add (add (add (add (add (add c0 c1) c2) c3) c4) c5) c6) c7)).
  { destruct Hv as [-> | ->]; unfold encodeTime; cbv zeta; rewrite Hn;
      do 8 eexists; (split; [| reflexivity]); apply CD_band_len. }
  destruct E as (c0 & c1 & c2 & c3 & c4 & c5 & c6 & c7 & H0 & ->).
  destruct (encode_sum_is_string c0 c1 c2 c3 c4 c5 c6 c7 1 H0) as [s ->].
  exists s. reflexivity.
Qed.

(** The error contract of the codec section does not hold at NaN. *)
Lemma encodeTime_NaN_not_rejected : ~ raises_unless_valid (VNum NaN).
Proof.
  intros [H _]. specialize (H eq_refl). vm_compute in H. discriminate H.
Qed.

(** What the guard [ts === null || ts < 0] lets through: [encodeTime]
    throws exactly when its argument is neither a number nor a Date, or
    when the number (the Date's time value) is negative, -Infinity
    included; every other argument -- NaN, +Infinity and non-integral
    non-negative numbers included -- reaches the body, which returns a
    string. *)
Lemma encodeTime_throws_iff_not_time_or_negative (v : value) :
  match v with
  | VNum n | VDate n =>
      match n with
      | NegInf => encodeTime v = ThrowTypeError
      | Fin q => if Qlt_le_dec q 0 then encodeTime v = ThrowTypeError
                 else exists s, encodeTime v = Normal (PStr s)
      | NaN | PosInf => exists s, encodeTime v = Normal (PStr s)
      end
  | _ => encodeTime v = ThrowTypeError
  end.
Proof.
  destruct v as [| | b | n | s | n |]; try reflexivity.
  - destruct n as [| | | q]; try reflexivity.
    + apply (encodeTime_body_returns_string _ NaN); [left |]; reflexivity.
    + apply (encodeTime_body_returns_string _ PosInf); [left |]; reflexivity.
    + pose proof (num_ltb0_Fin q) as Hq.
      destruct (Qlt_le_dec q 0).
      * unfold encodeTime. cbv zeta. rewrite Hq. reflexivity.
      * apply (encodeTime_body_returns_string _ (Fin q)); [left; reflexivity | exact Hq].
  - destruct n as [| | | q]; try reflexivity.
    + apply (encodeTime_body_returns_string _ NaN); [right |]; reflexivity.
    + apply (encodeTime_body_returns_string _ PosInf); [right |]; reflexivity.
    + pose proof (num_ltb0_Fin q) as Hq.
      destruct (Qlt_le_dec q 0).
      * unfold encodeTime. cbv zeta. rewrite Hq. reflexivity.
      * apply (encodeTime_body_returns_string _ (Fin q)); [right; reflexivity | exact Hq].
Qed.

(** ** Timestamp codec: encoding an integer *)

Lemma Qtrunc_inject_Z u : Qtrunc (inject_Z u) = u.
Proof.
  unfold Qtrunc, Qceiling, Qfloor, Qle_bool, inject_Z, Qopp. cbn [Qnum Qden].
  destruct (0 * 1 <=? u * 1).
  - apply Z.div_1_r.
  - rewrite Z.div_1_r. lia.
Qed.

Lemma Qfloor_div64 t : Qfloor (inject_Z t * (1 # 64)) = t / 64.
Proof.
  unfold Qfloor, Qmult, inject_Z. cbn [Qnum Qden].
  rewrite Z.mul_1_r. reflexivity.
Qed.

Lemma Qtrunc_div64 t : 0 <= t -> Qtrunc (inject_Z t * (1 # 64)) = t / 64.
Proof.
  intros H. unfold Qtrunc.
  replace (Qle_bool 0 (inject_Z t * (1 # 64))) with true.
  - apply Qfloor_div64.
  - symmetry. apply Qle_bool_iff.
    unfold Qle, Qmult, inject_Z. cbn [Qnum Qden]. lia.
Qed.

Lemma num_floor_div64_int t :
  num_floor_div64 (Fin (inject_Z t)) = Fin (inject_Z (t / 64)).
Proof. unfold num_floor_div64. rewrite Qfloor_div64. reflexivity. Qed.

Lemma arr_get_num_rem64_int arr t : 0 <= t ->
  arr_get_num arr (num_rem64 (Fin (inject_Z t))) = arr_get arr (t mod 64).
Proof.
  intros H. unfold num_rem64, arr_get_num. rewrite Qtrunc_div64 by assumption.
  assert (E : Qfloor (inject_Z t - inject_Z (64 * (t / 64))) = t mod 64).
  { unfold Qfloor, Qminus, Qplus, Qopp, inject_Z. cbn [Qnum Qden].
    rewrite Z.div_1_r. rewrite Z.mod_eq by lia. lia. }
  rewrite E.
  replace (Qeq_bool _ _) with true; [reflexivity |].
  symmetry. apply Qeq_bool_iff.
  unfold Qeq, Qminus, Qplus, Qopp, inject_Z. cbn [Qnum Qden].
  rewrite Z.mod_eq by lia. lia.
Qed.

Lemma num_ToInt32_int u : num_ToInt32 (Fin (inject_Z u)) = ToInt32 u.
Proof. unfold num_ToInt32. rewrite Qtrunc_inject_Z. reflexivity. Qed.

Lemma num_ToUint32_int u : num_ToUint32 (Fin (inject_Z u)) = ToUint32 u.
Proof. unfold num_ToUint32. rewrite Qtrunc_inject_Z. reflexivity. Qed.

Lemma shru_6 x : 0 <= x < 2 ^ 32 -> shru x 6 = x / 64.
Proof. intros H. rewrite shru_small by lia. reflexivity. Qed.

(** On a non-negative integer [encodeTime] returns the eight symbols of
    [encode_digits]. *)
Lemma encodeTime_int t : 0 <= t ->
  encodeTime (int_value t) = Normal (PStr (syms (encode_digits t))).
Proof.
  intros Ht. unfold encodeTime, int_value. cbv zeta.
  rewrite num_ltb0_Fin.
  destruct (Qlt_le_dec (inject_Z t) 0) as [Hneg | _].
  { exfalso. unfold Qlt, inject_Z in Hneg. cbn [Qnum Qden] in Hneg. lia. }
  rewrite !num_floor_div64_int.
  rewrite !arr_get_num_rem64_int by (try apply Z.div_pos; lia).
  unfold num_band, num_shru. rewrite num_ToInt32_int, num_ToUint32_int.
  fold (band (t / 64 / 64) 63). change (6 mod 32) with 6.
  unfold ToUint32.
  rewrite (Z.shiftr_div_pow2 _ 6) by lia. change (2 ^ 6) with 64.
  set (ts := (t / 64 / 64) mod 2 ^ 32 / 64).
  assert (Hts : 0 <= ts < 2 ^ 32).
  { subst ts. pose proof (Z.mod_pos_bound (t / 64 / 64) (2 ^ 32) ltac:(lia)).
    split; [apply Z.div_pos; lia | apply Z.div_lt_upper_bound; lia]. }
  rewrite !band_63.
  assert (Hdiv : forall x, 0 <= x < 2 ^ 32 -> 0 <= x / 64 < 2 ^ 32).
  { intros x Hx. split; [apply Z.div_pos; lia | apply Z.div_lt_upper_bound; lia]. }
  rewrite (shru_6 ts) by exact Hts.
  rewrite (shru_6 (ts / 64)) by auto.
  rewrite (shru_6 (ts / 64 / 64)) by auto.
  rewrite (shru_6 (ts / 64 / 64 / 64)) by auto.
  rewrite !CD_sym by (apply Z.mod_pos_bound; lia).
  reflexivity.
Qed.

(** The eight indices denote [t mod 2^44]: bits 44 and above are lost
    when [>>>] converts [t / 4096] to 32 bits. *)
Lemma horner_encode_digits t :
  0 <= t -> horner (encode_digits t) 0 = t mod 2 ^ 44.
Proof.
  intros Ht. unfold horner, encode_digits. cbv zeta. cbn [fold_left].
  change (2 ^ 32) with 4294967296. change (2 ^ 44) with 17592186044416.
  Z.div_mod_to_equations. lia.
Qed.

Lemma encode_digits_are_digits t : Forall is_digit (encode_digits t).
Proof.
  unfold encode_digits. cbv zeta.
  repeat (apply Forall_cons; [apply Z.mod_pos_bound; lia |]). apply Forall_nil.
Qed.

Lemma encode_digits_length t : Datatypes.length (encode_digits t) = 8%nat.
Proof. reflexivity. Qed.


(** ** Timestamp codec: decoding symbol strings *)

(** Every symbol is an ASCII character whose table entry is its index. *)
Lemma sym_lookup d : is_digit d ->
  Z.of_nat (nat_of_ascii (sym d)) <= 127 /\
  ASCII_LOOKUP_get (Z.of_nat (nat_of_ascii (sym d))) = Some d.
Proof.
  intros Hd.
  assert (Hall : forallb
            (fun n => let d := Z.of_nat n in
                      let code := Z.of_nat (nat_of_ascii (sym d)) in
                      (code <=? 127) &&
                      match ASCII_LOOKUP_get code with
                      | Some v => v =? d
                      | None => false
                      end) (seq 0 64) = true) by (vm_compute; reflexivity).
  rewrite forallb_forall in Hall.
  specialize (Hall (Z.to_nat d)). cbv zeta in Hall.
  unfold is_digit in Hd. rewrite Z2Nat.id in Hall by lia.
  assert (Hin : In (Z.to_nat d) (seq 0 64)) by (apply in_seq; lia).
  apply Hall in Hin. apply andb_true_iff in Hin. destruct Hin as [H1 H2].
  apply Z.leb_le in H1. split; [exact H1 |].
  destruct (ASCII_LOOKUP_get _) as [v |]; [| discriminate].
  apply Z.eqb_eq in H2. subst v. reflexivity.
Qed.

(** Reading past the first character is reading the rest from its start. *)
Lemma decodeTime_loop_shift n : forall c s i ts,
  decodeTime_loop n (String c s) (S i) ts = decodeTime_loop n s i ts.
Proof.
  induction n as [|n IH]; intros c s i ts; [reflexivity |].
  cbn [decodeTime_loop].
  change (charCodeAt (String c s) (S i)) with (charCodeAt s i).
  destruct (charCodeAt s i) as [code |]; [| apply IH].
  destruct (127 <? code); [reflexivity |].
  destruct (ASCII_LOOKUP_get code) as [v |]; [| apply IH].
  destruct v as [| q | q]; try apply IH.
  destruct q; try apply IH. reflexivity.
Qed.

(** Decoding the symbols of a digit sequence yields the number it denotes. *)
Lemma decodeTime_loop_syms ds : forall acc,
  Forall is_digit ds ->
  decodeTime_loop (Datatypes.length ds) (syms ds) 0 (TsInt acc)
  = Some (TsInt (horner ds acc)).
Proof.
  induction ds as [|d ds IH]; intros acc Hds; [reflexivity |].
  inversion Hds as [| ? ? Hd Hds']; subst.
  destruct (sym_lookup d Hd) as [Hcode Hget].
  cbn [Datatypes.length syms decodeTime_loop].
  unfold charCodeAt at 1. cbn [String.get].
  destruct (Z.ltb_spec 127 (Z.of_nat (nat_of_ascii (sym d)))); [lia |].
  rewrite Hget. unfold is_digit in Hd.
  assert (Hstep : decodeTime_loop (Datatypes.length ds) (String (sym d) (syms ds)) 1
                    (ts_step (TsInt acc) (Some d))
                  = Some (TsInt (horner (d :: ds) acc))).
  { rewrite decodeTime_loop_shift. cbn [ts_step]. rewrite IH by assumption.
    reflexivity. }
  destruct d as [| q | q]; try exact Hstep. lia.
Qed.

Lemma charCodeAt_app p s i : (i < String.length p)%nat ->
  charCodeAt (p ++ s) i = charCodeAt p i.
Proof.
  intros Hi. unfold charCodeAt. rewrite <- append_correct1 by assumption.
  reflexivity.
Qed.

(** The loop reads only the positions it counts through. *)
Lemma decodeTime_loop_app p s n : forall i ts,
  (i + n <= String.length p)%nat ->
  decodeTime_loop n (p ++ s) i ts = decodeTime_loop n p i ts.
Proof.
  induction n as [|n IH]; intros i ts Hlen; [reflexivity |].
  cbn [decodeTime_loop]. rewrite charCodeAt_app by lia.
  destruct (charCodeAt p i) as [code |]; [| apply IH; lia].
  destruct (127 <? code); [reflexivity |].
  destruct (ASCII_LOOKUP_get code) as [v |]; [| apply IH; lia].
  destruct v as [| q | q]; try (apply IH; lia).
  destruct q; try (apply IH; lia). reflexivity.
Qed.

Lemma falsy_long_string s : (8 <= String.length s)%nat -> falsy (VStr s) = false.
Proof. intros H. cbn [falsy]. apply Nat.eqb_neq. lia. Qed.

(** [decodeTime] ignores everything after the first eight characters. *)
Lemma decodeTime_prefix p s : (8 <= String.length p)%nat ->
  decodeTime (VStr (p ++ s)) = decodeTime (VStr p).
Proof.
  intros Hp.
  assert (Hps : (8 <= String.length (p ++ s))%nat)
    by (rewrite str_length_app; lia).
  unfold decodeTime. rewrite !falsy_long_string by assumption. cbn [orb].
  destruct (Nat.ltb_spec (String.length (p ++ s)) 8); [lia |].
  destruct (Nat.ltb_spec (String.length p) 8); [lia |].
  apply decodeTime_loop_app. lia.
Qed.

Lemma decodeTime_syms ds :
  Datatypes.length ds = 8%nat -> Forall is_digit ds ->
  decodeTime (VStr (syms ds)) = Some (TsInt (horner ds 0)).
Proof.
  intros Hlen Hds. unfold decodeTime.
  rewrite falsy_long_string by (rewrite syms_length; lia). cbn [orb].
  destruct (Nat.ltb_spec (String.length (syms ds)) 8) as [H |];
    [rewrite syms_length in H; lia |].
  rewrite <- Hlen. apply decodeTime_loop_syms. exact Hds.
Qed.

(** What the codec does on every non-negative integer: the encoding has
    eight symbols and decodes to [t mod 2^44], with or without trailing
    characters. *)
Lemma decodeTime_encodeTime_mod t s : 0 <= t ->
  exists e, encodeTime (int_value t) = Normal (PStr e) /\
            String.length e = 8%nat /\
            decodeTime (VStr (e ++ s)) = Some (TsInt (t mod 2 ^ 44)).
Proof.
  intros Ht. exists (syms (encode_digits t)).
  split; [apply encodeTime_int; exact Ht |].
  split; [rewrite syms_length; reflexivity |].
  rewrite decodeTime_prefix by (rewrite syms_length; simpl; lia).
  rewrite decodeTime_syms;
    [| apply encode_digits_length | apply encode_digits_are_digits].
  rewrite horner_encode_digits by exact Ht. reflexivity.
Qed.

(** Below 2^44 the round trip and the prefix decode hold. *)
Lemma decodeTime_encodeTime_below_2_44 t s : 0 <= t < 2 ^ 44 ->
  exists e, encodeTime (int_value t) = Normal (PStr e) /\
            decodeTime (VStr e) = Some (TsInt t) /\
            decodeTime (VStr (e ++ s)) = Some (TsInt t).
Proof.
  intros Ht.
  destruct (decodeTime_encodeTime_mod t s ltac:(lia)) as [e [He [Hl Hd]]].
  exists e. rewrite Z.mod_small in Hd by lia.
  split; [exact He |]. split; [| exact Hd].
  rewrite <- (decodeTime_prefix e s) by lia. exact Hd.
Qed.

(** ** Order of encodings *)

Lemma sym_compare a b : is_digit a -> is_digit b ->
  Ascii.compare (sym a) (sym b) = Z.compare a b.
Proof.
  intros Ha Hb. unfold is_digit in *.
  assert (Hall : forallb (fun n => forallb (fun m =>
            match Ascii.compare (sym (Z.of_nat n)) (sym (Z.of_nat m)),
                  Z.compare (Z.of_nat n) (Z.of_nat m) with
            | Eq, Eq | Lt, Lt | Gt, Gt => true
            | _, _ => false
            end) (seq 0 64)) (seq 0 64) = true) by (vm_compute; reflexivity).
  rewrite forallb_forall in Hall.
  specialize (Hall (Z.to_nat a) ltac:(apply in_seq; lia)).
  rewrite forallb_forall in Hall.
  specialize (Hall (Z.to_nat b) ltac:(apply in_seq; lia)).
  rewrite !Z2Nat.id in Hall by lia.
  destruct (Ascii.compare (sym a) (sym b)), (a ?= b);
    try reflexivity; discriminate Hall.
Qed.

Lemma horner_acc ds : forall acc,
  horner ds acc = acc * 64 ^ Z.of_nat (Datatypes.length ds) + horner ds 0.
Proof.
  unfold horner. induction ds as [|d ds IH]; intros acc.
  - simpl. lia.
  - cbn [fold_left Datatypes.length].
    rewrite (IH (acc * 64 + d)), (IH (0 * 64 + d)).
    rewrite Nat2Z.inj_succ, Z.pow_succ_r by lia. ring.
Qed.

Lemma horner_bound ds : Forall is_digit ds ->
  0 <= horner ds 0 < 64 ^ Z.of_nat (Datatypes.length ds).
Proof.
  induction 1 as [| d ds Hd Hds IH].
  - simpl. lia.
  - unfold is_digit in Hd.
    change (horner (d :: ds) 0) with (horner ds (0 * 64 + d)).
    rewrite horner_acc. cbn [Datatypes.length].
    rewrite Nat2Z.inj_succ, Z.pow_succ_r by lia. nia.
Qed.

(** Comparing two equally long symbol strings byte by byte is comparing
    the numbers their indices denote. *)
Lemma compare_syms ds1 : forall ds2,
  Datatypes.length ds1 = Datatypes.length ds2 ->
  Forall is_digit ds1 -> Forall is_digit ds2 ->
  String.compare (syms ds1) (syms ds2) = Z.compare (horner ds1 0) (horner ds2 0).
Proof.
  induction ds1 as [|a ds1 IH]; intros [|b ds2] Hlen H1 H2;
    try discriminate Hlen; [reflexivity |].
  inversion H1 as [| ? ? Ha H1']; inversion H2 as [| ? ? Hb H2']; subst.
  injection Hlen as Hlen.
  cbn [syms String.compare]. rewrite (sym_compare a b Ha Hb).
  change (horner (a :: ds1) 0) with (horner ds1 (0 * 64 + a)).
  change (horner (b :: ds2) 0) with (horner ds2 (0 * 64 + b)).
  rewrite (horner_acc ds1), (horner_acc ds2), <- Hlen.
  pose proof (horner_bound ds1 H1') as B1.
  pose proof (horner_bound ds2 H2') as B2. rewrite <- Hlen in B2.
  set (P := 64 ^ Z.of_nat (Datatypes.length ds1)) in *.
  unfold is_digit in Ha, Hb.
  destruct (Z.compare_spec a b) as [-> | Hlt | Hgt].
  - rewrite (IH ds2 Hlen H1' H2'). symmetry. apply Z.add_compare_mono_l.
  - symmetry. apply Z.compare_lt_iff. nia.
  - symmetry. apply Z.compare_gt_iff. nia.
Qed.

(** Below 2^44 encoding preserves strict order. *)
Lemma encodeTime_monotone_below_2_44 t1 t2 : 0 <= t1 < t2 -> t2 < 2 ^ 44 ->
  exists e1 e2, encodeTime (int_value t1) = Normal (PStr e1) /\
                encodeTime (int_value t2) = Normal (PStr e2) /\
                String.ltb e1 e2 = true.
Proof.
  intros H1 H2.
  exists (syms (encode_digits t1)), (syms (encode_digits t2)).
  split; [apply encodeTime_int; lia |]. split; [apply encodeTime_int; lia |].
  unfold String.ltb.
  rewrite compare_syms;
    [| reflexivity | apply encode_digits_are_digits | apply encode_digits_are_digits].
  rewrite !horner_encode_digits, !Z.mod_small by lia.
  replace (t1 ?= t2) with Lt by (symmetry; apply Z.compare_lt_iff; lia).
  reflexivity.
Qed.

(** ** Substrings of a concatenation *)

Lemma str_take_app p s : str_take (String.length p) (p ++ s) = p.
Proof. induction p as [|c p IH]; simpl; [reflexivity | rewrite IH; reflexivity]. Qed.

Lemma str_drop_app p s : str_drop (String.length p) (p ++ s) = s.
Proof. induction p as [|c p IH]; simpl; [reflexivity | exact IH]. Qed.

Lemma str_take_all s : str_take (String.length s) s = s.
Proof. induction s as [|c s IH]; simpl; [reflexivity | rewrite IH; reflexivity]. Qed.

Lemma substring_prefix p s : substring (p ++ s) 0 (String.length p) = p.
Proof.
  unfold substring. rewrite str_length_app.
  rewrite Nat.min_0_l, (Nat.min_l (String.length p)) by lia.
  rewrite Nat.max_0_l, Nat.min_0_l, Nat.sub_0_r. cbn [str_drop].
  apply str_take_app.
Qed.

Lemma substring_middle p m s :
  substring (p ++ m ++ s) (String.length p) (String.length p + String.length m) = m.
Proof.
  unfold substring. rewrite !str_length_app.
  rewrite (Nat.min_l (String.length p)) by lia.
  rewrite (Nat.min_l (String.length p + String.length m)) by lia.
  rewrite Nat.max_r, Nat.min_l by lia.
  rewrite str_drop_app.
  replace (String.length p + String.length m - String.length p)%nat
    with (String.length m) by lia.
  apply str_take_app.
Qed.

Lemma substring_from_suffix p s : substring_from (p ++ s) (String.length p) = s.
Proof.
  unfold substring_from, substring. rewrite !str_length_app.
  rewrite Nat.min_l, Nat.min_id by lia.
  rewrite Nat.max_r, Nat.min_l by lia.
  rewrite str_drop_app.
  replace (String.length p + String.length s - String.length p)%nat
    with (String.length s) by lia.
  apply str_take_all.
Qed.

(** ** Identifier parser *)

(** A string shorter than eight characters makes the parser throw. *)
Lemma decodeTimeIDr_short_throws s delimiter :
  (String.length s < 8)%nat ->
  decodeTimeIDr (VStr s) delimiter = ThrowTypeError.
Proof.
  intros H. cbn [decodeTimeIDr].
  destruct (Nat.leb_spec 8 (String.length s)); [lia | reflexivity].
Qed.

(** On every other argument it returns, an object or [undefined]. *)
Lemma decodeTimeIDr_returns_otherwise v delimiter :
  (forall s, v = VStr s -> (8 <= String.length s)%nat) ->
  exists r, decodeTimeIDr v delimiter = Normal r.
Proof.
  intros H. destruct v; try (eexists; reflexivity).
  specialize (H s eq_refl). cbn [decodeTimeIDr].
  destruct (Nat.leb_spec 8 (String.length s)); [| lia].
  destruct (decodeTime _); [| eexists; reflexivity].
  destruct (_ && _); eexists; reflexivity.
Qed.

(** A timestamp block that does not decode gives [undefined]. *)
Lemma decodeTimeIDr_malformed s delimiter :
  (8 <= String.length s)%nat -> decodeTime (VStr (substring s 0 8)) = None ->
  decodeTimeIDr (VStr s) delimiter = Normal None.
Proof.
  intros H E. cbn [decodeTimeIDr].
  destruct (Nat.leb_spec 8 (String.length s)); [| lia].
  rewrite E. reflexivity.
Qed.

(** A non-empty delimiter that is not found after the timestamp block
    gives [undefined]. *)
Lemma decodeTimeIDr_delimiter_mismatch s delimiter :
  (8 <= String.length s)%nat -> (0 < String.length delimiter)%nat ->
  substring s 8 (8 + String.length delimiter) <> delimiter ->
  decodeTimeIDr (VStr s) delimiter = Normal None.
Proof.
  intros H Hd Hne. cbn [decodeTimeIDr].
  destruct (Nat.leb_spec 8 (String.length s)); [| lia].
  destruct (decodeTime _); [| reflexivity].
  destruct (Nat.ltb_spec 0 (String.length delimiter)); [| lia].
  apply String.eqb_neq in Hne. rewrite Hne. reflexivity.
Qed.

(** Parsing a timestamp block followed by the delimiter and a suffix
    recovers what the block decodes to, and the suffix verbatim. *)
Lemma decodeTimeIDr_compose tid delimiter rnd ts :
  String.length tid = 8%nat -> decodeTime (VStr tid) = Some ts ->
  decodeTimeIDr (VStr (tid ++ delimiter ++ rnd)) delimiter
  = Normal (Some (new_TimeIDRandom (new_Date ts) ts tid rnd delimiter)).
Proof.
  intros Hlen Hts. cbn [decodeTimeIDr].
  rewrite <- Hlen.
  rewrite substring_prefix, substring_middle, Hts.
  rewrite String.eqb_refl, andb_false_r.
  destruct (Nat.leb_spec (String.length tid)
              (String.length (tid ++ delimiter ++ rnd))) as [_ | H];
    [| rewrite str_length_app in H; lia].
  rewrite <- str_length_app, <- str_app_assoc, substring_from_suffix.
  reflexivity.
Qed.

(** Composing with [newID] and parsing with the same delimiter yields
    the timestamp modulo 2^44 and a 12-symbol suffix. *)
Lemma decodeTimeIDr_newID_mod now t s : 0 <= t ->
  exists id o, fst (newID now (int_value t) 12 "-" s) = Normal (PStr id) /\
               decodeTimeIDr (VStr id) "-" = Normal (Some o) /\
               time o = TsInt (t mod 2 ^ 44) /\
               String.length (randomness o) = 12%nat.
Proof.
  intros Ht.
  destruct (decodeTime_encodeTime_mod t "" Ht) as [e [He [Hl Hd]]].
  rewrite (decodeTime_prefix e "") in Hd by lia.
  destruct (str_of_len_length _ _ (newRND_length 12 s)) as [rnd [Hr Hrl]].
  change (clamp 12 12 1024) with 12 in Hrl.
  unfold newID. cbv zeta.
  change (default_dateTime now (int_value t)) with (int_value t). rewrite He.
  destruct (newRND 12 s) as [p s']. cbn [fst] in Hr |- *. subst p.
  exists ((e ++ "-") ++ rnd)%string. eexists.
  split; [reflexivity |].
  rewrite str_app_assoc, (decodeTimeIDr_compose e "-" rnd _ Hl Hd).
  split; [reflexivity |]. cbn [time randomness new_TimeIDRandom].
  split; [reflexivity | lia].
Qed.

(** Below 2^44 the composer/parser round trip holds. *)
Lemma decodeTimeIDr_newID_below_2_44 now t s : 0 <= t < 2 ^ 44 ->
  exists id o, fst (newID now (int_value t) 12 "-" s) = Normal (PStr id) /\
               decodeTimeIDr (VStr id) "-" = Normal (Some o) /\
               time o = TsInt t /\ String.length (randomness o) = 12%nat.
Proof.
  intros Ht. destruct (decodeTimeIDr_newID_mod now t s ltac:(lia)) as [id [o H]].
  rewrite Z.mod_small in H by lia. exists id, o. exact H.
Qed.

(** ** Sample evaluations *)

Example nextInt32_sample :
  nextInt32 (mkSfc32 1 2 3 4) = (8, mkSfc32 2 27 6291459 5).
Proof. reflexivity. Qed.

Example encodeTime_zero : encodeTime (int_value 0) = Normal (PStr "00000000").
Proof. vm_compute. reflexivity. Qed.

Example encodeTime_rejects_negative : encodeTime (int_value (-100)) = ThrowTypeError.
Proof. vm_compute. reflexivity. Qed.

Example encodeTime_rejects_string : encodeTime (VStr "not a number") = ThrowTypeError.
Proof. reflexivity. Qed.

Example encodeTime_rejects_null : encodeTime VNull = ThrowTypeError.
Proof. reflexivity. Qed.

Example encodeTime_fraction :
  encodeTime (VNum (Fin (3 # 2))) = Normal (PStr "0000000undefined").
Proof. vm_compute. reflexivity. Qed.

Example decodeTime_short : decodeTime (VStr "short") = None.
Proof. reflexivity. Qed.

Example decodeTime_bad_char : decodeTime (VStr "bad$char") = None.
Proof. vm_compute. reflexivity. Qed.

Example decodeTime_max : decodeTime (VStr "~~~~~~~~") = Some (TsInt (2 ^ 48 - 1)).
Proof. vm_compute. reflexivity. Qed.

Example decodeTimeIDr_wrong_delimiter :
  decodeTimeIDr (VStr "0PDdKC4j-abcdefabcdef") "_" = Normal None.
Proof. vm_compute. reflexivity. Qed.

(** ** The claims that fail from 2^44 on

    [encodeTime] takes the two low symbols by floating-point division
    and the other six with [>>>], which first converts its operand,
    [t / 4096], to 32 bits.  For [t < 2^48] that operand needs 36 bits,
    so bits 44..47 of the timestamp never reach the string, although the
    repository's documentation describes the timestamp as 48-bit. *)

(** C1.  The round trip decodeTime(encodeTime(t)) = t fails inside the
    48-bit range: at t = 2^44 the encoding is "00000000", which decodes
    to 0. *)
Theorem roundtrip_fails_at_2_44 :
  0 <= 2 ^ 44 < 2 ^ 48 /\
  encodeTime (int_value (2 ^ 44)) = Normal (PStr "00000000") /\
  decodeTime (VStr "00000000") = Some (TsInt 0).
Proof. split; [lia |]. split; vm_compute; reflexivity. Qed.

(** C2.  Encoding is not order-preserving on the 48-bit range: 2^44 - 1
    is less than 2^44, yet its encoding "3~~~~~~~" is not byte-wise
    less than the encoding "00000000" of 2^44. *)
Theorem order_fails_at_2_44 :
  0 <= 2 ^ 44 - 1 < 2 ^ 44 /\ 2 ^ 44 < 2 ^ 48 /\
  encodeTime (int_value (2 ^ 44 - 1)) = Normal (PStr "3~~~~~~~") /\
  encodeTime (int_value (2 ^ 44)) = Normal (PStr "00000000") /\
  String.ltb "3~~~~~~~" "00000000" = false.
Proof.
  split; [lia |]. split; [lia |]. repeat split; vm_compute; reflexivity.
Qed.

(** C4.  The parser does raise on a too-short string: for "short"
    (five characters) [decodeTimeIDr] throws a TypeError instead of
    returning the no-value sentinel. *)
Theorem decodeTimeIDr_throws_on_short_string :
  decodeTimeIDr (VStr "short") "-" = ThrowTypeError /\
  decodeTimeIDr (VStr "short") "" = ThrowTypeError.
Proof. split; reflexivity. Qed.

(** C6.  The composer/parser round trip fails inside the 48-bit range:
    from every generator state (and whatever the clock reads), parsing
    newID(2^44, 12, "-") with "-" succeeds with a 12-symbol randomness
    field but yields timestamp 0. *)
Theorem newID_roundtrip_fails_at_2_44 (now : number) (s : sfc32) :
  exists id o, fst (newID now (int_value (2 ^ 44)) 12 "-" s) = Normal (PStr id) /\
               decodeTimeIDr (VStr id) "-" = Normal (Some o) /\
               time o = TsInt 0 /\
               String.length (randomness o) = 12%nat.
Proof. exact (decodeTimeIDr_newID_mod now (2 ^ 44) s ltac:(lia)). Qed.

(** ** Invalid numbers, and the prefix decode *)

(** C3.  [encodeTime] does not raise for every input that is not a
    finite, non-negative, integer-valued number or Date: the numbers
    NaN, +Infinity and 1.5 and the invalid Date (time value NaN) are
    invalid inputs, yet it returns for them, and what it returns is not
    even an 8-symbol string. *)
Theorem encodeTime_returns_on_invalid_numbers :
  (valid_time_input (VNum NaN) = false /\
   encodeTime (VNum NaN) = Normal (PStr "000000undefinedundefined")) /\
  (valid_time_input (VNum PosInf) = false /\
   encodeTime (VNum PosInf) = Normal (PStr "000000undefinedundefined")) /\
  (valid_time_input (VNum (Fin (3 # 2))) = false /\
   encodeTime (VNum (Fin (3 # 2))) = Normal (PStr "0000000undefined")) /\
  (valid_time_input (VDate NaN) = false /\
   encodeTime (VDate NaN) = Normal (PStr "000000undefinedundefined")).
Proof. repeat split; vm_compute; reflexivity. Qed.



(** From 2^44 on the eight characters hold the timestamp modulo 2^44, so
    the prefix decodes to that: the encoding of 2^44 followed by
    "_anything" decodes to 0. *)
Example prefix_decode_at_2_44 :
  encodeTime (int_value (2 ^ 44)) = Normal (PStr "00000000") /\
  decodeTime (VStr ("00000000" ++ "_anything")) = Some (TsInt 0).
Proof. split; vm_compute; reflexivity. Qed.

(** * Further properties of the library *)

(** ** Tables *)

Lemma charCodeAt_Some_lt s i code :
  charCodeAt s i = Some code -> (i < String.length s)%nat.
Proof.
  unfold charCodeAt. revert i. induction s as [|c s IH]; intros i H.
  - destruct i; discriminate H.
  - destruct i as [|i]; simpl; [lia |].
    simpl in H. apply IH in H. lia.
Qed.

(** X1.  The character codes of the alphabet [CHAR_DICT_STR] increase
    strictly with the index: for i < j < 64 the code at i is below the
    code at j. *)
Theorem alphabet_strictly_increasing (i j : nat) :
  (i < j)%nat -> (j < 64)%nat ->
  exists a b, charCodeAt CHAR_DICT_STR i = Some a /\
              charCodeAt CHAR_DICT_STR j = Some b /\ a < b.
Proof.
  intros Hij Hj.
  assert (Hall : forallb (fun i => forallb (fun j =>
             negb (i <? j)%nat ||
             match charCodeAt CHAR_DICT_STR i, charCodeAt CHAR_DICT_STR j with
             | Some a, Some b => a <? b
             | _, _ => false
             end) (seq 0 64)) (seq 0 64) = true) by (vm_compute; reflexivity).
  rewrite forallb_forall in Hall.
  specialize (Hall i ltac:(apply in_seq; lia)).
  rewrite forallb_forall in Hall.
  specialize (Hall j ltac:(apply in_seq; lia)).
  destruct (Nat.ltb_spec i j); [| lia]. cbn [negb orb] in Hall.
  destruct (charCodeAt CHAR_DICT_STR i) as [a |]; [| discriminate].
  destruct (charCodeAt CHAR_DICT_STR j) as [b |]; [| discriminate].
  exists a, b. apply Z.ltb_lt in Hall. auto.
Qed.

Lemma alphabet_strictly_increasing_witness :
  exists a b, charCodeAt CHAR_DICT_STR 9 = Some a /\
              charCodeAt CHAR_DICT_STR 10 = Some b /\ a < b.
Proof. apply alphabet_strictly_increasing; lia. Defined.

(** X2.  [ASCII_LOOKUP] is the inverse of the alphabet: the entry at the
    code of the symbol of index i is i, and every code below 128 that is
    not the code of a symbol holds -1. *)
Theorem ASCII_LOOKUP_inverts_alphabet :
  (forall i code, charCodeAt CHAR_DICT_STR i = Some code ->
                  ASCII_LOOKUP_get code = Some (Z.of_nat i)) /\
  (forall code, 0 <= code < 128 ->
                (forall i, charCodeAt CHAR_DICT_STR i <> Some code) ->
                ASCII_LOOKUP_get code = Some (-1)).
Proof.
  split.
  - intros i code H.
    pose proof (charCodeAt_Some_lt _ _ _ H) as Hi.
    change (String.length CHAR_DICT_STR) with 64%nat in Hi.
    assert (Hall : forallb (fun i =>
               match charCodeAt CHAR_DICT_STR i with
               | Some code =>
                   match ASCII_LOOKUP_get code with
                   | Some v => v =? Z.of_nat i
                   | None => false
                   end
               | None => false
               end) (seq 0 64) = true) by (vm_compute; reflexivity).
    rewrite forallb_forall in Hall.
    specialize (Hall i ltac:(apply in_seq; lia)). rewrite H in Hall.
    destruct (ASCII_LOOKUP_get code) as [v |]; [| discriminate].
    apply Z.eqb_eq in Hall. subst v. reflexivity.
  - intros code Hc Hno.
    assert (Hall : forallb (fun n =>
               existsb (fun i =>
                 match charCodeAt CHAR_DICT_STR i with
                 | Some c => c =? Z.of_nat n
                 | None => false
                 end) (seq 0 64)
               || match ASCII_LOOKUP_get (Z.of_nat n) with
                  | Some v => v =? -1
                  | None => false
                  end) (seq 0 128) = true) by (vm_compute; reflexivity).
    rewrite forallb_forall in Hall.
    specialize (Hall (Z.to_nat code) ltac:(apply in_seq; lia)).
    rewrite Z2Nat.id in Hall by lia.
    apply orb_true_iff in Hall. destruct Hall as [Hex | Hm].
    + apply existsb_exists in Hex. destruct Hex as [i [_ Hi]].
      destruct (charCodeAt CHAR_DICT_STR i) as [c |] eqn:E; [| discriminate].
      apply Z.eqb_eq in Hi. subst c. exfalso. exact (Hno i E).
    + destruct (ASCII_LOOKUP_get code) as [v |]; [| discriminate].
      apply Z.eqb_eq in Hm. subst v. reflexivity.
Qed.

Lemma ASCII_LOOKUP_inverts_alphabet_witness :
  ASCII_LOOKUP_get 65 = Some 10 /\ ASCII_LOOKUP_get 36 = Some (-1).
Proof.
  split.
  - apply (proj1 ASCII_LOOKUP_inverts_alphabet 10%nat 65). reflexivity.
  - apply (proj2 ASCII_LOOKUP_inverts_alphabet 36); [lia |].
    intros i H. pose proof (charCodeAt_Some_lt _ _ _ H) as Hi.
    change (String.length CHAR_DICT_STR) with 64%nat in Hi.
    do 64 (destruct i as [|i]; [discriminate H |]). simpl in Hi. lia.
Defined.

Lemma obj_get_In o k v : obj_get o k = Some v -> In (k, v) o.
Proof.
  induction o as [|[k' v'] o IH]; simpl; [discriminate |].
  destruct (String.eqb_spec k' k) as [-> |].
  - intros H. injection H as ->. left. reflexivity.
  - intros H. right. apply IH. exact H.
Qed.

(** X3.  The own properties of [CHAR_MAP] are the 64 symbols, each with
    its index: [CHAR_MAP] has an own property k of value v exactly when
    v is an index of the alphabet and k is the one-character string
    [CHAR_DICT[v]]. *)
Theorem CHAR_MAP_inverts_alphabet (k : string) (v : Z) :
  obj_get CHAR_MAP k = Some v <->
  (is_digit v /\ CD[v] = PStr k).
Proof.
  split.
  - intros H. apply obj_get_In in H.
    assert (Hall : forallb (fun kv : string * Z =>
               let (k, v) := kv in
               (0 <=? v) && (v <? 64) &&
               String.eqb k (String (sym v) EmptyString)) CHAR_MAP = true)
      by (vm_compute; reflexivity).
    rewrite forallb_forall in Hall. specialize (Hall _ H). cbv beta iota in Hall.
    apply andb_true_iff in Hall. destruct Hall as [Hr Hk].
    apply andb_true_iff in Hr. destruct Hr as [H0 H1].
    apply Z.leb_le in H0. apply Z.ltb_lt in H1. apply String.eqb_eq in Hk.
    split; [unfold is_digit; lia |]. rewrite CD_sym by lia. subst k. reflexivity.
  - intros [Hv Hk]. unfold is_digit in Hv. rewrite CD_sym in Hk by lia.
    injection Hk as <-.
    assert (Hall : forallb (fun i =>
               match obj_get CHAR_MAP (String (sym (Z.of_nat i)) EmptyString) with
               | Some w => w =? Z.of_nat i
               | None => false
               end) (seq 0 64) = true) by (vm_compute; reflexivity).
    rewrite forallb_forall in Hall.
    specialize (Hall (Z.to_nat v) ltac:(apply in_seq; lia)).
    rewrite Z2Nat.id in Hall by lia.
    destruct (obj_get CHAR_MAP _) as [w |]; [| discriminate].
    apply Z.eqb_eq in Hall. subst w. reflexivity.
Qed.

(** X4.  For every draw r, the pair read [DOUBLE_CHAR_DICT[r & 0xFFF]] is
    the concatenation of the single reads [CHAR_DICT[r & 0x3F]] and
    [CHAR_DICT[(r >>> 6) & 0x3F]], a string of two symbols. *)
Theorem DOUBLE_CHAR_DICT_is_two_single_lookups (r : Z) :
  DCD[band r 0xFFF] = add CD[band r 0x3F] CD[band (shru r 6) 0x3F] /\
  str_of_len DCD[band r 0xFFF] 2.
Proof.
  split; [| apply DCD_band_len].
  rewrite band_4095, DCD_pair by (apply Z.mod_pos_bound; lia).
  rewrite !band_63.
  unfold shru. change (6 mod 32) with 6. rewrite Z.shiftr_div_pow2 by lia.
  unfold ToUint32. change (2 ^ 6) with 64. change (2 ^ 32) with 4294967296.
  rewrite !CD_sym by (apply Z.mod_pos_bound; lia).
  cbn [add to_str String.append].
  replace ((r mod 4096) mod 64) with (r mod 64)
    by (Z.div_mod_to_equations; lia).
  replace ((r mod 4096 / 64) mod 64) with ((r mod 4294967296 / 64) mod 64)
    by (Z.div_mod_to_equations; lia).
  reflexivity.
Qed.


(** ** Generator and seeding *)

Lemma is_int32_shiftr x : is_int32 x <-> (Z.shiftr x 31 = 0 \/ Z.shiftr x 31 = -1).
Proof.
  unfold is_int32. rewrite Z.shiftr_div_pow2 by lia.
  change (2 ^ 31) with 2147483648. split; intros H.
  - Z.div_mod_to_equations. lia.
  - Z.div_mod_to_equations. lia.
Qed.

Lemma is_int32_ToInt32 x : is_int32 (ToInt32 x).
Proof. exact (ToInt32_range x). Qed.

Lemma is_int32_lxor x y : is_int32 x -> is_int32 y -> is_int32 (Z.lxor x y).
Proof.
  rewrite !is_int32_shiftr, Z.shiftr_lxor.
  intros [-> | ->] [-> | ->]; cbn; auto.
Qed.

Lemma is_int32_lor x y : is_int32 x -> is_int32 y -> is_int32 (Z.lor x y).
Proof.
  rewrite !is_int32_shiftr, Z.shiftr_lor.
  intros [-> | ->] [-> | ->]; cbn; auto.
Qed.

Lemma nextInt32_int32 s :
  is_int32 (fst (nextInt32 s)) /\
  is_int32 (_a (snd (nextInt32 s))) /\ is_int32 (_b (snd (nextInt32 s))) /\
  is_int32 (_c (snd (nextInt32 s))) /\ is_int32 (_d (snd (nextInt32 s))).
Proof.
  unfold nextInt32. cbn [fst snd _a _b _c _d]. rewrite !bor_0.
  split; [apply is_int32_ToInt32 |].
  split; [apply is_int32_lxor; apply is_int32_ToInt32 |].
  split; [apply is_int32_ToInt32 |].
  split; apply is_int32_ToInt32.
Qed.

Lemma ToInt32_ToUint32 x : ToInt32 (ToUint32 x) = ToInt32 x.
Proof.
  unfold ToInt32, ToUint32. rewrite Z.mod_mod by lia. reflexivity.
Qed.

Lemma ToInt32_id x : is_int32 x -> ToInt32 x = x.
Proof.
  unfold is_int32, ToInt32. intros H. change (2 ^ 32) with 4294967296.
  change (2 ^ 31) with 2147483648 in *.
  destruct (Z.leb_spec 2147483648 (x mod 4294967296));
    Z.div_mod_to_equations; lia.
Qed.

Lemma after_draws_S n s :
  after_draws (S n) s = snd (nextInt32 (after_draws n s)).
Proof.
  revert s. induction n as [|n IH]; intros s; [reflexivity |].
  change (after_draws (S (S n)) s) with (after_draws (S n) (snd (nextInt32 s))).
  rewrite IH. reflexivity.
Qed.

Lemma after_draws_add n m s :
  after_draws (n + m) s = after_draws m (after_draws n s).
Proof.
  revert s. induction n as [|n IH]; intros s; [reflexivity |].
  cbn [Nat.add after_draws]. apply IH.
Qed.

Lemma counter_after_draws n s :
  ToUint32 (_d (after_draws n s)) = (ToUint32 (_d s) + Z.of_nat n) mod 2 ^ 32.
Proof.
  revert s. induction n as [|n IH]; intros s.
  - cbn [after_draws]. rewrite Z.add_0_r. unfold ToUint32. symmetry.
    apply Z.mod_mod. lia.
  - cbn [after_draws]. rewrite IH. unfold nextInt32. cbn [snd _d].
    rewrite bor_0, ToUint32_ToInt32. unfold ToUint32.
    rewrite !Z.add_mod_idemp_l by lia. f_equal. lia.
Qed.

(** A signed 32-bit integer is the signed reading of its own bits. *)
Lemma int32_of_unsigned_view x u : is_int32 x -> ToUint32 x = u -> x = ToInt32 u.
Proof.
  intros Hx <-. rewrite ToInt32_ToUint32, ToInt32_id by exact Hx. reflexivity.
Qed.

(** C8.  One call to [nextInt32] performs exactly the advance the
    specification describes.  With t = a+b mod 2^32 on the four state
    words read as unsigned, the words the call leaves are d+1 mod 2^32,
    b xor (b >>> 9), c + (c << 3) mod 2^32 and rotl(c,21) + t mod 2^32,
    and the draw is t + (d+1) mod 2^32: the call returns and stores
    exactly these 32-bit words, each as the signed integer [| 0] makes
    of it ([ToInt32], [signed_state]), so that reading them as unsigned
    gives back the specified values.  This holds from every state; on a
    state of unsigned words [unsigned_state] is the identity
    ([unsigned_state_id]). *)
Theorem nextInt32_refines_spec_advance (s : sfc32) :
  nextInt32 s
  = (ToInt32 (fst (spec_advance (unsigned_state s))),
     signed_state (snd (spec_advance (unsigned_state s)))) /\
  ToUint32 (fst (nextInt32 s)) = fst (spec_advance (unsigned_state s)) /\
  unsigned_state (snd (nextInt32 s)) = snd (spec_advance (unsigned_state s)).
Proof.
  destruct (nextInt32_unsigned_view s) as [Hr Hs].
  destruct (nextInt32_int32 s) as (Ir & Ia & Ib & Ic & Id).
  split; [| split; assumption].
  destruct (nextInt32 s) as [r s1]. cbn [fst snd] in *.
  destruct s1 as [a b c d]. cbn [_a _b _c _d] in *.
  destruct (spec_advance (unsigned_state s)) as [r' [a' b' c' d']].
  cbn [fst snd] in *. unfold unsigned_state in Hs. cbn [_a _b _c _d] in Hs.
  injection Hs as Ha Hb Hc Hd.
  unfold signed_state. cbn [_a _b _c _d].
  rewrite (int32_of_unsigned_view r r' Ir Hr).
  rewrite (int32_of_unsigned_view a a' Ia Ha) at 1.
  rewrite (int32_of_unsigned_view b b' Ib Hb) at 1.
  rewrite (int32_of_unsigned_view c c' Ic Hc) at 1.
  rewrite (int32_of_unsigned_view d d' Id Hd) at 1.
  reflexivity.
Qed.

(** X5.  Every call of [nextInt32] returns a signed 32-bit integer and
    leaves four signed 32-bit integers in the state, whatever the state
    held before. *)
Theorem nextInt32_yields_int32 (s : sfc32) :
  is_int32 (fst (nextInt32 s)) /\
  is_int32 (_a (snd (nextInt32 s))) /\ is_int32 (_b (snd (nextInt32 s))) /\
  is_int32 (_c (snd (nextInt32 s))) /\ is_int32 (_d (snd (nextInt32 s))).
Proof. exact (nextInt32_int32 s). Qed.

(** X6.  The word [_d] is a counter: after n calls of [nextInt32] it holds,
    read as an unsigned word, its initial value plus n modulo 2^32. *)
Theorem generator_counter (s : sfc32) (n : nat) :
  ToUint32 (_d (after_draws n s)) = (ToUint32 (_d s) + Z.of_nat n) mod 2 ^ 32.
Proof. apply counter_after_draws. Qed.

(** X7.  Fewer than 2^32 calls of [nextInt32] never bring the generator
    back to a state it was in: the states after i and after j calls
    differ whenever 0 < j - i < 2^32. *)
Theorem generator_states_distinct (s : sfc32) (i j : nat) :
  (i < j)%nat -> Z.of_nat j - Z.of_nat i < 2 ^ 32 ->
  after_draws i s <> after_draws j s.
Proof.
  intros Hij Hlt Heq.
  assert (E : ToUint32 (_d (after_draws i s)) = ToUint32 (_d (after_draws j s)))
    by (rewrite Heq; reflexivity).
  rewrite !counter_after_draws in E.
  pose proof (ToUint32_range (_d s)) as Hd. unfold ToUint32 in *.
  change (2 ^ 32) with 4294967296 in *.
  Z.div_mod_to_equations. lia.
Qed.

Lemma generator_states_distinct_witness :
  (0 < 3)%nat /\
  after_draws 0 (mkSfc32 1 2 3 4) <> after_draws 3 (mkSfc32 1 2 3 4).
Proof.
  split; [lia |].
  apply generator_states_distinct; [lia | simpl; lia].
Defined.

Lemma warm_up_is_after_draws n s : warm_up n s = after_draws n s.
Proof.
  revert s. induction n as [|n IH]; intros s; [reflexivity |].
  cbn [warm_up after_draws]. rewrite IH. reflexivity.
Qed.

Lemma after_draws_int32 n s : (0 < n)%nat ->
  is_int32 (_a (after_draws n s)) /\ is_int32 (_b (after_draws n s)) /\
  is_int32 (_c (after_draws n s)) /\ is_int32 (_d (after_draws n s)).
Proof.
  intros Hn. destruct n as [|n]; [lia |].
  rewrite after_draws_S. apply nextInt32_int32.
Qed.

(** X8.  Seeding is fifteen discarded draws: [seedSFC32] leaves the state
    that fifteen calls of [nextInt32] reach from (now >>> 0, rb | 0,
    rc | 0, 1); its counter [_d] is 16 and the other words are signed
    32-bit integers. *)
Theorem seedSFC32_is_fifteen_draws (now rb rc : number) :
  seedSFC32 now rb rc
  = after_draws 15 (mkSfc32 (num_shru now 0) (num_bor rb 0) (num_bor rc 0) 1) /\
  _d (seedSFC32 now rb rc) = 16 /\
  is_int32 (_a (seedSFC32 now rb rc)) /\ is_int32 (_b (seedSFC32 now rb rc)) /\
  is_int32 (_c (seedSFC32 now rb rc)).
Proof.
  unfold seedSFC32. rewrite warm_up_is_after_draws.
  set (s0 := mkSfc32 _ _ _ 1).
  destruct (after_draws_int32 15 s0 ltac:(lia)) as (Ha & Hb & Hc & Hd).
  split; [reflexivity |]. split; [| auto].
  pose proof (counter_after_draws 15 s0) as E.
  change (ToUint32 (_d s0)) with 1 in E.
  change ((1 + Z.of_nat 15) mod 2 ^ 32) with 16 in E.
  rewrite <- (ToInt32_id _ Hd). unfold ToInt32. fold (ToUint32 (_d (after_draws 15 s0))).
  rewrite E. reflexivity.
Qed.


(** ** Number of draws and origin of the symbols *)

Lemma draws_for_0 : draws_for 0 = 0%nat.
Proof. reflexivity. Qed.

Lemma draws_for_small m : 1 <= m <= 2 -> draws_for m = 1%nat.
Proof.
  intros H. assert (m = 1 \/ m = 2) as [-> | ->] by lia; reflexivity.
Qed.

Lemma draws_for_3 : draws_for 3 = 2%nat.
Proof. reflexivity. Qed.

Lemma draws_for_4 : draws_for 4 = 1%nat.
Proof. reflexivity. Qed.

Lemma draws_for_step m : 4 < m -> draws_for m = S (draws_for (m - 4)).
Proof.
  intros H. unfold draws_for.
  replace ((m - 4) mod 4) with (m mod 4) by (Z.div_mod_to_equations; lia).
  replace ((m - 4) / 4) with (m / 4 - 1) by (Z.div_mod_to_equations; lia).
  assert (1 <= m / 4) by (Z.div_mod_to_equations; lia).
  destruct (m mod 4 =? 0); [lia |]. destruct (m mod 4 =? 3); lia.
Qed.

Lemma after_draws_snd n s :
  after_draws n (snd (nextInt32 s)) = after_draws (S n) s.
Proof. reflexivity. Qed.

Lemma slow_loop_draws (k : nat) : forall len s str i,
  (Z.to_nat (len - i) <= k)%nat -> 0 <= i <= len ->
  snd (slow_loop len s str i) = after_draws (draws_for (len - i)) s.
Proof.
  induction k as [|k IH]; intros len s str i Hk Hi;
    rewrite slow_loop_iteration; cbv zeta.
  - destruct (Z.ltb_spec i len); [lia |].
    replace (len - i) with 0 by lia. reflexivity.
  - destruct (Z.ltb_spec i len) as [Hlt | Hge];
      [| replace (len - i) with 0 by lia; reflexivity].
    destruct (Z.ltb_spec (i + 1) len).
    + destruct (Z.eqb_spec (i + 2) len) as [E |].
      { replace (len - i) with 2 by lia. reflexivity. }
      destruct (Z.ltb_spec (i + 2 + 1) len).
      * destruct (Z.eqb_spec (i + 2 + 2) len) as [E |].
        { replace (len - i) with 4 by lia. reflexivity. }
        rewrite IH by lia. rewrite after_draws_snd.
        rewrite (draws_for_step (len - i)) by lia.
        do 2 f_equal. f_equal. lia.
      * rewrite IH by lia. rewrite after_draws_snd.
        replace (len - (i + 2)) with 1 by lia.
        replace (len - i) with 3 by lia. reflexivity.
    + replace (len - i) with 1 by lia. reflexivity.
Qed.

Lemma newRND_slow_draws n s :
  snd (newRND_slow n s) = after_draws (draws_for (clamp n 12 1024)) s.
Proof.
  unfold newRND_slow. cbv zeta. rewrite slow_path_len_clamp.
  pose proof (clamp_range n 12 1024 ltac:(lia)).
  rewrite (slow_loop_draws (Z.to_nat (clamp n 12 1024))) by lia.
  rewrite Z.sub_0_r. reflexivity.
Qed.

(** X9.  [newRND n] advances the generator by exactly
    [draws_for (clamp n 12 1024)] calls of [nextInt32]: one per four
    symbols, one more for a remainder of one or two symbols, and two
    more for a remainder of three; the fast paths make 3 and 6 calls. *)
Theorem newRND_number_of_draws (n : Z) (s : sfc32) :
  snd (newRND n s) = after_draws (draws_for (clamp n 12 1024)) s.
Proof.
  unfold newRND.
  destruct (Z.eqb_spec n 12) as [-> |].
  { unfold newRND_fast12.
    change (draws_for (clamp 12 12 1024)) with 3%nat. cbn [after_draws].
    destruct (nextInt32 s) as [r1 s1]. cbn [snd].
    destruct (nextInt32 s1) as [r2 s2]. cbn [snd].
    destruct (nextInt32 s2) as [r3 s3]. reflexivity. }
  destruct (Z.eqb_spec n 21) as [-> |].
  { unfold newRND_fast21.
    change (draws_for (clamp 21 12 1024)) with 6%nat. cbn [after_draws].
    destruct (nextInt32 s) as [r1 s1]. cbn [snd].
    destruct (nextInt32 s1) as [r2 s2]. cbn [snd].
    destruct (nextInt32 s2) as [r3 s3]. cbn [snd].
    destruct (nextInt32 s3) as [r4 s4]. cbn [snd].
    destruct (nextInt32 s4) as [r5 s5]. cbn [snd].
    destruct (nextInt32 s5) as [r6 s6]. reflexivity. }
  apply newRND_slow_draws.
Qed.

Lemma draw_pairs r :
  add DCD[band r 0xFFF] DCD[band (shru r 12) 0xFFF] = PStr (syms (draw_digits r)).
Proof.
  rewrite !band_4095, !DCD_pair by (apply Z.mod_pos_bound; lia).
  unfold draw_digits, shru. cbv zeta. change (12 mod 32) with 12.
  rewrite Z.shiftr_div_pow2 by lia. unfold ToUint32.
  change (2 ^ 12) with 4096. change (2 ^ 32) with 4294967296.
  cbn [add to_str String.append syms].
  replace ((r mod 4096) mod 64) with ((r mod 4294967296) mod 64)
    by (Z.div_mod_to_equations; lia).
  replace ((r mod 4096 / 64) mod 64) with ((r mod 4294967296 / 64) mod 64)
    by (Z.div_mod_to_equations; lia).
  replace (((r mod 4294967296 / 4096) mod 4096) mod 64)
    with ((r mod 4294967296 / 4096) mod 64) by (Z.div_mod_to_equations; lia).
  replace (((r mod 4294967296 / 4096) mod 4096 / 64) mod 64)
    with ((r mod 4294967296 / 262144) mod 64) by (Z.div_mod_to_equations; lia).
  reflexivity.
Qed.

(** X10.  The default suffix [newRND 12] is made of the symbols whose
    indices are bits 0-5, 6-11, 12-17 and 18-23 of each of three
    successive draws, in this order; bits 24-31 of a draw are not used. *)
Theorem newRND_default_symbols_from_draws (s : sfc32) :
  fst (newRND 12 s)
  = PStr (syms (draw_digits (fst (nextInt32 s)) ++
                draw_digits (fst (nextInt32 (after_draws 1 s))) ++
                draw_digits (fst (nextInt32 (after_draws 2 s))))).
Proof.
  change (newRND 12 s) with (newRND_fast12 s). unfold newRND_fast12.
  cbn [after_draws].
  destruct (nextInt32 s) as [r1 s1]. cbn [fst snd].
  destruct (nextInt32 s1) as [r2 s2]. cbn [fst snd].
  destruct (nextInt32 s2) as [r3 s3]. cbn [fst snd].
  rewrite !draw_pairs. cbn [add to_str]. rewrite !syms_app. reflexivity.
Qed.


(** ** Codec *)

(** Codes below 128 whose table entry is not -1 are alphabet symbols. *)
Lemma lookup_is_symbol (c : ascii) (v : Z) :
  ASCII_LOOKUP_get (Z.of_nat (nat_of_ascii c)) = Some v -> v <> -1 ->
  Z.of_nat (nat_of_ascii c) <= 127 ->
  is_digit v /\ c = sym v.
Proof.
  intros Hget Hv Hc.
  assert (Hall : forallb (fun n =>
             match ASCII_LOOKUP_get (Z.of_nat n) with
             | Some v => (v =? -1) ||
                         ((0 <=? v) && (v <? 64) &&
                          (nat_of_ascii (sym v) =? n)%nat)
             | None => false
             end) (seq 0 128) = true) by (vm_compute; reflexivity).
  rewrite forallb_forall in Hall.
  specialize (Hall (nat_of_ascii c) ltac:(apply in_seq; lia)).
  rewrite Hget in Hall. apply orb_true_iff in Hall.
  destruct Hall as [H | H]; [apply Z.eqb_eq in H; contradiction |].
  apply andb_true_iff in H. destruct H as [H Hs].
  apply andb_true_iff in H. destruct H as [H0 H1].
  apply Z.leb_le in H0. apply Z.ltb_lt in H1. apply Nat.eqb_eq in Hs.
  split; [unfold is_digit; lia |].
  rewrite <- (ascii_nat_embedding c), <- Hs, ascii_nat_embedding. reflexivity.
Qed.

Lemma str_take_8_substring s : (8 <= String.length s)%nat ->
  substring s 0 8 = str_take 8 s.
Proof.
  intros H. unfold substring.
  rewrite Nat.min_0_l, (Nat.min_l 8) by lia. reflexivity.
Qed.

(** A successful run of the loop from position 0 has read alphabet
    symbols, and returns the number their indices denote. *)
Lemma decodeTime_loop_inv n : forall s acc r,
  (n <= String.length s)%nat ->
  decodeTime_loop n s 0 (TsInt acc) = Some r ->
  exists ds, Datatypes.length ds = n /\ Forall is_digit ds /\
             str_take n s = syms ds /\ r = TsInt (horner ds acc).
Proof.
  induction n as [|n IH]; intros s acc r Hlen H.
  - cbn in H. injection H as <-. exists []. repeat split. constructor.
  - destruct s as [|c s]; [simpl in Hlen; lia |].
    cbn [decodeTime_loop] in H. unfold charCodeAt in H. cbn [String.get] in H.
    destruct (Z.ltb_spec 127 (Z.of_nat (nat_of_ascii c))) as [| Hc]; [discriminate |].
    destruct (ASCII_LOOKUP_get (Z.of_nat (nat_of_ascii c))) as [v |] eqn:Hget.
    2:{ destruct (ASCII_LOOKUP_get_defined (Z.of_nat (nat_of_ascii c)) ltac:(lia))
          as [v Hv]. rewrite Hv in Hget. discriminate. }
    assert (Hv : v <> -1) by (intros ->; discriminate H).
    assert (Hstep : decodeTime_loop n (String c s) 1 (TsInt (acc * 64 + v)) = Some r).
    { destruct v as [| q | q]; try exact H. destruct q; try exact H. contradiction. }
    rewrite decodeTime_loop_shift in Hstep.
    destruct (lookup_is_symbol c v Hget Hv Hc) as [Hd ->].
    simpl in Hlen.
    destruct (IH s (acc * 64 + v) r ltac:(lia) Hstep) as (ds & Hl & Hds & Ht & Hr).
    exists (v :: ds). split; [simpl; lia |]. split; [constructor; assumption |].
    split; [cbn [str_take syms]; rewrite Ht; reflexivity | exact Hr].
Qed.

Lemma decodeTime_inv s r :
  decodeTime (VStr s) = Some r ->
  (8 <= String.length s)%nat /\
  exists ds, Datatypes.length ds = 8%nat /\ Forall is_digit ds /\
             substring s 0 8 = syms ds /\ r = TsInt (horner ds 0).
Proof.
  unfold decodeTime. intros H.
  destruct (falsy (VStr s)); [discriminate |]. cbn [orb] in H.
  destruct (Nat.ltb_spec (String.length s) 8); [discriminate |].
  split; [assumption |].
  rewrite str_take_8_substring by assumption.
  apply decodeTime_loop_inv; assumption.
Qed.

Lemma horner_inj ds1 ds2 :
  Datatypes.length ds1 = Datatypes.length ds2 ->
  Forall is_digit ds1 -> Forall is_digit ds2 ->
  horner ds1 0 = horner ds2 0 -> syms ds1 = syms ds2.
Proof.
  intros Hl H1 H2 E. apply String.compare_eq_iff.
  rewrite compare_syms by assumption. rewrite E. apply Z.compare_refl.
Qed.

Lemma encode_digits_horner ds :
  Datatypes.length ds = 8%nat -> Forall is_digit ds -> horner ds 0 < 2 ^ 44 ->
  encode_digits (horner ds 0) = ds.
Proof.
  intros Hl Hd Hlt.
  do 8 (destruct ds as [|? ds]; [discriminate Hl |]).
  destruct ds; [| discriminate Hl].
  repeat match goal with H : Forall _ (_ :: _) |- _ => inversion H; clear H; subst end.
  unfold is_digit in *. unfold horner in *. cbn [fold_left] in *.
  unfold encode_digits. cbv zeta.
  change (2 ^ 32) with 4294967296. change (2 ^ 44) with 17592186044416 in Hlt.
  repeat f_equal; Z.div_mod_to_equations; lia.
Qed.

(** X11.  For every non-negative integer, [encodeTime] returns a string of
    exactly 8 symbols of the alphabet. *)
Theorem encodeTime_returns_eight_symbols (t : Z) :
  0 <= t ->
  exists ds, encodeTime (int_value t) = Normal (PStr (syms ds)) /\
             Forall is_digit ds /\ String.length (syms ds) = 8%nat.
Proof.
  intros Ht. exists (encode_digits t).
  split; [apply encodeTime_int; exact Ht |].
  split; [apply encode_digits_are_digits |].
  rewrite syms_length. reflexivity.
Qed.

Lemma encodeTime_returns_eight_symbols_witness :
  exists ds, encodeTime (int_value 1731985500123) = Normal (PStr (syms ds)) /\
             Forall is_digit ds /\ String.length (syms ds) = 8%nat.
Proof. apply encodeTime_returns_eight_symbols. lia. Defined.

(** X12.  For every non-negative integer t and every trailing string,
    decoding the encoding of t followed by the trailing string yields
    t mod 2^44; hence t itself when t < 2^44. *)
Theorem decodeTime_of_encodeTime_is_mod_2_44 (t : Z) (s : string) :
  0 <= t ->
  exists e, encodeTime (int_value t) = Normal (PStr e) /\
            decodeTime (VStr (e ++ s)) = Some (TsInt (t mod 2 ^ 44)) /\
            (t < 2 ^ 44 -> decodeTime (VStr (e ++ s)) = Some (TsInt t)).
Proof.
  intros Ht. destruct (decodeTime_encodeTime_mod t s Ht) as [e [He [_ Hd]]].
  exists e. split; [exact He |]. split; [exact Hd |].
  intros Hlt. rewrite Hd, Z.mod_small by lia. reflexivity.
Qed.

Lemma decodeTime_of_encodeTime_is_mod_2_44_witness :
  exists e, encodeTime (int_value (2 ^ 44 + 5)) = Normal (PStr e) /\
            decodeTime (VStr (e ++ "-suffix")) = Some (TsInt ((2 ^ 44 + 5) mod 2 ^ 44)) /\
            (2 ^ 44 + 5 < 2 ^ 44 ->
             decodeTime (VStr (e ++ "-suffix")) = Some (TsInt (2 ^ 44 + 5))).
Proof. apply decodeTime_of_encodeTime_is_mod_2_44. lia. Defined.

(** X13.  On [0, 2^44) comparing two encodings byte by byte is comparing
    the timestamps: the encoding is strictly monotone and injective
    there. *)
Theorem encodeTime_compare_below_2_44 (t1 t2 : Z) :
  0 <= t1 < 2 ^ 44 -> 0 <= t2 < 2 ^ 44 ->
  exists e1 e2, encodeTime (int_value t1) = Normal (PStr e1) /\
                encodeTime (int_value t2) = Normal (PStr e2) /\
                String.compare e1 e2 = Z.compare t1 t2.
Proof.
  intros H1 H2.
  exists (syms (encode_digits t1)), (syms (encode_digits t2)).
  split; [apply encodeTime_int; lia |]. split; [apply encodeTime_int; lia |].
  rewrite compare_syms;
    [| reflexivity | apply encode_digits_are_digits | apply encode_digits_are_digits].
  rewrite !horner_encode_digits, !Z.mod_small by lia. reflexivity.
Qed.

Lemma encodeTime_compare_below_2_44_witness :
  exists e1 e2, encodeTime (int_value 63) = Normal (PStr e1) /\
                encodeTime (int_value 64) = Normal (PStr e2) /\
                String.compare e1 e2 = Z.compare 63 64.
Proof. apply encodeTime_compare_below_2_44; lia. Defined.

(** X14.  [decodeTime] returns a value for a string exactly when the
    string starts with eight symbols of the alphabet, and the value is
    the base-64 number their indices denote, most significant first. *)
Theorem decodeTime_succeeds_iff_eight_symbols (s : string) (r : tsval) :
  decodeTime (VStr s) = Some r <->
  exists ds rest, s = (syms ds ++ rest)%string /\ Datatypes.length ds = 8%nat /\
                  Forall is_digit ds /\ r = TsInt (horner ds 0).
Proof.
  split.
  - intros H. destruct (decodeTime_inv s r H) as (Hlen & ds & Hl & Hd & Hs & Hr).
    exists ds, (str_drop 8 s). split; [| auto].
    rewrite <- Hs, str_take_8_substring by assumption.
    clear. revert s. generalize 8%nat as n.
    induction n as [|n IH]; intros s; [reflexivity |].
    destruct s as [|c s]; [reflexivity |]. cbn. rewrite <- IH. reflexivity.
  - intros (ds & rest & -> & Hl & Hd & ->).
    rewrite decodeTime_prefix by (rewrite syms_length; lia).
    apply decodeTime_syms; assumption.
Qed.

(** X15.  Encoding inverts decoding below 2^44: when [decodeTime s] is an
    integer t < 2^44, [encodeTime t] is the first eight characters of s. *)
Theorem encodeTime_of_decodeTime_below_2_44 (s : string) (t : Z) :
  decodeTime (VStr s) = Some (TsInt t) -> t < 2 ^ 44 ->
  encodeTime (int_value t) = Normal (PStr (substring s 0 8)).
Proof.
  intros H Hlt. destruct (decodeTime_inv s _ H) as (Hlen & ds & Hl & Hd & Hs & Hr).
  injection Hr as ->. rewrite Hs.
  pose proof (horner_bound ds Hd) as Hb.
  rewrite encodeTime_int by lia.
  rewrite encode_digits_horner by assumption. reflexivity.
Qed.

Lemma encodeTime_of_decodeTime_below_2_44_witness :
  encodeTime (int_value 1732621943086)
  = Normal (PStr (substring "0PDdKC4j-abcdefabcdef" 0 8)).
Proof.
  apply encodeTime_of_decodeTime_below_2_44; [vm_compute; reflexivity | lia].
Defined.

(** X16.  Two strings that decode to the same value have the same first
    eight characters. *)
Theorem decodeTime_injective_on_first_eight (s1 s2 : string) (r : tsval) :
  decodeTime (VStr s1) = Some r -> decodeTime (VStr s2) = Some r ->
  substring s1 0 8 = substring s2 0 8.
Proof.
  intros H1 H2.
  destruct (decodeTime_inv s1 r H1) as (_ & ds1 & Hl1 & Hd1 & -> & Hr1).
  destruct (decodeTime_inv s2 r H2) as (_ & ds2 & Hl2 & Hd2 & -> & Hr2).
  apply horner_inj; try assumption; [lia |].
  rewrite Hr1 in Hr2. injection Hr2 as E. exact E.
Qed.

Lemma decodeTime_injective_on_first_eight_witness :
  substring "0PDdKC4j-abc" 0 8 = substring "0PDdKC4j_xyz12" 0 8.
Proof.
  apply (decodeTime_injective_on_first_eight _ _ (TsInt 1732621943086));
    vm_compute; reflexivity.
Defined.


(** ** Parser and composer *)

Lemma str_take_drop n : forall s, (str_take n s ++ str_drop n s)%string = s.
Proof.
  induction n as [|n IH]; intros s; [reflexivity |].
  destruct s as [|c s]; [reflexivity |]. cbn. rewrite IH. reflexivity.
Qed.

Lemma str_take_length n : forall s,
  String.length (str_take n s) = Nat.min n (String.length s).
Proof.
  induction n as [|n IH]; intros s; [reflexivity |].
  destruct s as [|c s]; [reflexivity |]. cbn. rewrite IH. reflexivity.
Qed.

Lemma str_drop_length n : forall s,
  String.length (str_drop n s) = (String.length s - n)%nat.
Proof.
  induction n as [|n IH]; intros s; [cbn; lia |].
  destruct s as [|c s]; [reflexivity |]. cbn. apply IH.
Qed.

Lemma str_take_min n : forall s,
  str_take (Nat.min n (String.length s)) s = str_take n s.
Proof.
  induction n as [|n IH]; intros s; [reflexivity |].
  destruct s as [|c s]; [reflexivity |]. cbn. rewrite IH. reflexivity.
Qed.

Lemma str_drop_min n : forall s,
  str_drop (Nat.min n (String.length s)) s = str_drop n s.
Proof.
  induction n as [|n IH]; intros s; [reflexivity |].
  destruct s as [|c s]; [reflexivity |]. cbn. apply IH.
Qed.

Lemma str_drop_app_add p m s :
  str_drop (String.length p + m) (p ++ s) = str_drop m s.
Proof. induction p as [|c p IH]; [reflexivity | exact IH]. Qed.

(** The delimiter slot and the rest of a string that starts with [p]. *)
Lemma substring_after_prefix p q k :
  substring (p ++ q) (String.length p) (String.length p + k) = str_take k q.
Proof.
  unfold substring. rewrite str_length_app.
  rewrite (Nat.min_l (String.length p)) by lia.
  rewrite Nat.add_min_distr_l.
  set (m := Nat.min k (String.length q)).
  rewrite (Nat.max_r (String.length p)), (Nat.min_l (String.length p)) by lia.
  replace (String.length p + m - String.length p)%nat with m by lia.
  rewrite str_drop_app. apply str_take_min.
Qed.

Lemma substring_from_after_prefix p q k :
  substring_from (p ++ q) (String.length p + k) = str_drop k q.
Proof.
  unfold substring_from, substring. rewrite str_length_app.
  rewrite Nat.min_id, Nat.add_min_distr_l.
  set (m := Nat.min k (String.length q)).
  rewrite (Nat.max_r (String.length p + m)), (Nat.min_l (String.length p + m)) by lia.
  rewrite str_drop_app_add. subst m. rewrite str_drop_min.
  replace (String.length p + String.length q
           - (String.length p + Nat.min k (String.length q)))%nat
    with (String.length (str_drop k q)) by (rewrite str_drop_length; lia).
  apply str_take_all.
Qed.

Lemma new_Date_decoded ts z : ts = TsInt z -> 0 <= z < 2 ^ 48 -> new_Date ts = ts.
Proof.
  intros -> Hz. cbn [new_Date].
  destruct (Z.ltb_spec 8640000000000000 (Z.abs z)); [lia | reflexivity].
Qed.

(** What a successful parse holds, for a string split after its first
    eight characters. *)
Lemma decodeTimeIDr_app_inv p q delimiter o :
  String.length p = 8%nat ->
  decodeTimeIDr (VStr (p ++ q)) delimiter = Normal (Some o) ->
  exists ts q',
    q = (delimiter ++ q')%string /\
    decodeTime (VStr p) = Some ts /\
    o = new_TimeIDRandom ts ts p q' delimiter.
Proof.
  intros Hp H. cbn [decodeTimeIDr] in H.
  destruct (8 <=? String.length (p ++ q))%nat; [| discriminate].
  rewrite <- Hp in H.
  rewrite substring_prefix, substring_after_prefix, substring_from_after_prefix in H.
  destruct (decodeTime (VStr p)) as [ts |] eqn:Hts; [| discriminate].
  destruct (decodeTime_range _ _ Hts) as [z [Hz Hr]].
  rewrite (new_Date_decoded ts z Hz Hr) in H.
  destruct (Nat.ltb_spec 0 (String.length delimiter)) as [Hd | Hd].
  - destruct (String.eqb_spec (str_take (String.length delimiter) q) delimiter)
      as [E | E]; cbn [negb andb] in H; [| discriminate].
    injection H as <-. exists ts, (str_drop (String.length delimiter) q).
    split; [| split; reflexivity].
    rewrite <- (str_take_drop (String.length delimiter) q) at 1.
    rewrite E. reflexivity.
  - cbn [andb] in H. injection H as <-.
    assert (delimiter = EmptyString) as ->
      by (destruct delimiter; [reflexivity | simpl in Hd; lia]).
    exists ts, q. split; [| split]; reflexivity.
Qed.

Lemma decodeTimeIDr_inv s delimiter o :
  decodeTimeIDr (VStr s) delimiter = Normal (Some o) ->
  exists ts q,
    s = (substring s 0 8 ++ delimiter ++ q)%string /\
    decodeTime (VStr s) = Some ts /\
    o = new_TimeIDRandom ts ts (substring s 0 8) q delimiter.
Proof.
  intros H.
  assert (Hlen : (8 <= String.length s)%nat).
  { cbn [decodeTimeIDr] in H.
    destruct (Nat.leb_spec 8 (String.length s)); [assumption | discriminate]. }
  assert (Hp : String.length (str_take 8 s) = 8%nat)
    by (rewrite str_take_length; lia).
  rewrite str_take_8_substring by assumption.
  rewrite <- (str_take_drop 8 s) in H.
  destruct (decodeTimeIDr_app_inv _ _ _ _ Hp H) as (ts & q' & Hq & Hts & ->).
  exists ts, q'. split; [| split; [| reflexivity]].
  - rewrite <- Hq. symmetry. apply str_take_drop.
  - rewrite <- (str_take_drop 8 s), decodeTime_prefix by lia. exact Hts.
Qed.

(** X17.  A successful parse loses nothing: the [tIDr] field of the
    object is the parsed string, which is [tID], the delimiter and
    [randomness] concatenated; [tID] is its first eight characters,
    [time] is what [decodeTime] returns for the string, and [date] holds
    the same value. *)
Theorem decodeTimeIDr_result_rebuilds_input (s delimiter : string) (o : TimeIDRandom) :
  decodeTimeIDr (VStr s) delimiter = Normal (Some o) ->
  tIDr o = s /\
  s = (tID o ++ delimiter ++ randomness o)%string /\
  tID o = substring s 0 8 /\
  decodeTime (VStr s) = Some (time o) /\
  date o = time o.
Proof.
  intros H. destruct (decodeTimeIDr_inv s delimiter o H) as (ts & q & Hs & Hts & ->).
  cbn [tIDr tID randomness time date new_TimeIDRandom].
  repeat split; auto.
Qed.

Lemma decodeTimeIDr_result_rebuilds_input_witness :
  "0PDdKC4j-abcdefabcdef"%string = "0PDdKC4j-abcdefabcdef"%string /\
  "0PDdKC4j-abcdefabcdef"%string = ("0PDdKC4j" ++ "-" ++ "abcdefabcdef")%string /\
  "0PDdKC4j"%string = substring "0PDdKC4j-abcdefabcdef" 0 8 /\
  decodeTime (VStr "0PDdKC4j-abcdefabcdef") = Some (TsInt 1732621943086) /\
  TsInt 1732621943086 = TsInt 1732621943086.
Proof.
  apply (decodeTimeIDr_result_rebuilds_input "0PDdKC4j-abcdefabcdef" "-"
           (new_TimeIDRandom (TsInt 1732621943086) (TsInt 1732621943086)
              "0PDdKC4j" "abcdefabcdef" "-")).
  vm_compute. reflexivity.
Defined.

(** X18.  On a string of at least eight characters, [decodeTimeIDr] with
    the empty delimiter returns [undefined] exactly when [decodeTimeID]
    does, and otherwise the two objects hold the same date and time and
    the [tID] of the one is the [tIDr] of the other. *)
Theorem decodeTimeIDr_without_delimiter_agrees_with_decodeTimeID (s : string) :
  (8 <= String.length s)%nat ->
  (decodeTimeIDr (VStr s) "" = Normal None <-> decodeTimeID (VStr s) = None) /\
  (forall o, decodeTimeIDr (VStr s) "" = Normal (Some o) ->
             decodeTimeID (VStr s)
             = Some (mkTimeID (ts_number (date o)) (ts_number (time o)) (PStr (tIDr o)))).
Proof.
  intros Hlen.
  assert (Hp : String.length (str_take 8 s) = 8%nat)
    by (rewrite str_take_length; lia).
  assert (Hdec : decodeTime (VStr (substring s 0 8)) = decodeTime (VStr s)).
  { rewrite str_take_8_substring by assumption.
    rewrite <- (str_take_drop 8 s) at 2. rewrite decodeTime_prefix by lia.
    reflexivity. }
  split.
  - unfold decodeTimeID. cbn [decodeTimeIDr].
    destruct (Nat.leb_spec 8 (String.length s)) as [_ | Hlt]; [| lia].
    rewrite Hdec. cbn [String.length Nat.ltb Nat.leb andb].
    destruct (decodeTime (VStr s)); split; intros H; try discriminate H; reflexivity.
  - intros o H.
    destruct (decodeTimeIDr_inv s "" o H) as (ts & q & Hs & Ht & ->).
    cbn [date time tIDr new_TimeIDRandom]. rewrite <- Hs.
    unfold decodeTimeID. rewrite Ht.
    destruct (decodeTime_range _ _ Ht) as [z [Hz Hr]].
    rewrite (new_Date_decoded _ z Hz Hr). reflexivity.
Qed.

(** What [newID] returns for a non-negative integer time. *)
Lemma newID_int now t n delimiter s : 0 <= t ->
  exists rnd,
    fst (newRND n s) = PStr rnd /\
    Z.of_nat (String.length rnd) = clamp n 12 1024 /\
    newID now (int_value t) n delimiter s
    = (Normal (PStr (syms (encode_digits t) ++ delimiter ++ rnd)), snd (newRND n s)).
Proof.
  intros Ht. destruct (str_of_len_length _ _ (newRND_length n s)) as [rnd [Hr Hl]].
  exists rnd. split; [exact Hr |]. split; [exact Hl |].
  unfold newID. cbv zeta.
  change (default_dateTime now (int_value t)) with (int_value t).
  rewrite encodeTime_int by exact Ht.
  destruct (newRND n s) as [p s']. cbn [fst snd] in *. subst p.
  cbn [add to_str]. rewrite str_app_assoc. reflexivity.
Qed.

(** X19.  For a non-negative integer time, [newID] returns a string of
    8 + delimiter.length + clamp(length, 12, 1024) characters. *)
Theorem newID_length (now : number) (t n : Z) (delimiter : string) (s : sfc32) :
  0 <= t ->
  exists id, fst (newID now (int_value t) n delimiter s) = Normal (PStr id) /\
             Z.of_nat (String.length id)
             = 8 + Z.of_nat (String.length delimiter) + clamp n 12 1024.
Proof.
  intros Ht. destruct (newID_int now t n delimiter s Ht) as (rnd & _ & Hl & ->).
  eexists. split; [reflexivity |].
  rewrite !str_length_app, syms_length, encode_digits_length. lia.
Qed.

Lemma newID_length_witness :
  exists id, fst (newID NaN (int_value 5) 2000 "_-_" (mkSfc32 1 2 3 4))
             = Normal (PStr id) /\
             Z.of_nat (String.length id)
             = 8 + Z.of_nat (String.length "_-_") + clamp 2000 12 1024.
Proof. apply newID_length. lia. Defined.

(** X20.  For every non-negative integer time, suffix length, delimiter
    and generator state, parsing what [newID] returns with the same
    delimiter succeeds: the object holds the time modulo 2^44, and as
    [tID] and [randomness] exactly the encoding and the suffix that
    [newID] concatenated. *)
Theorem decodeTimeIDr_of_newID
  (now : number) (t n : Z) (delimiter : string) (s : sfc32) :
  0 <= t ->
  exists e rnd,
    encodeTime (int_value t) = Normal (PStr e) /\
    fst (newRND n s) = PStr rnd /\
    fst (newID now (int_value t) n delimiter s)
    = Normal (PStr (e ++ delimiter ++ rnd)) /\
    decodeTimeIDr (VStr (e ++ delimiter ++ rnd)) delimiter
    = Normal (Some (new_TimeIDRandom (TsInt (t mod 2 ^ 44)) (TsInt (t mod 2 ^ 44))
                      e rnd delimiter)).
Proof.
  intros Ht. destruct (newID_int now t n delimiter s Ht) as (rnd & Hr & _ & Hid).
  exists (syms (encode_digits t)), rnd.
  split; [apply encodeTime_int; exact Ht |]. split; [exact Hr |].
  split; [rewrite Hid; reflexivity |].
  assert (Hd : decodeTime (VStr (syms (encode_digits t))) = Some (TsInt (t mod 2 ^ 44))).
  { rewrite decodeTime_syms;
      [| apply encode_digits_length | apply encode_digits_are_digits].
    rewrite horner_encode_digits by exact Ht. reflexivity. }
  assert (He : String.length (syms (encode_digits t)) = 8%nat)
    by (rewrite syms_length; reflexivity).
  rewrite (decodeTimeIDr_compose _ delimiter rnd _ He Hd).
  rewrite (new_Date_decoded _ (t mod 2 ^ 44) eq_refl)
    by (pose proof (Z.mod_pos_bound t (2 ^ 44) ltac:(lia)); lia).
  reflexivity.
Qed.

Lemma decodeTimeIDr_of_newID_witness :
  exists e rnd,
    encodeTime (int_value 1732621943086) = Normal (PStr e) /\
    fst (newRND 16 (mkSfc32 1 2 3 4)) = PStr rnd /\
    fst (newID NaN (int_value 1732621943086) 16 "_-_" (mkSfc32 1 2 3 4))
    = Normal (PStr (e ++ "_-_" ++ rnd)) /\
    decodeTimeIDr (VStr (e ++ "_-_" ++ rnd)) "_-_"
    = Normal (Some (new_TimeIDRandom (TsInt (1732621943086 mod 2 ^ 44))
                      (TsInt (1732621943086 mod 2 ^ 44)) e rnd "_-_")).
Proof. apply decodeTimeIDr_of_newID. lia. Defined.

(** X21.  Parsing what [newID] returned with another delimiter of the
    same length gives [undefined]. *)
Theorem decodeTimeIDr_rejects_other_delimiter
  (now : number) (t n : Z) (d1 d2 : string) (s : sfc32) :
  0 <= t -> String.length d1 = String.length d2 -> d1 <> d2 ->
  exists id, fst (newID now (int_value t) n d1 s) = Normal (PStr id) /\
             decodeTimeIDr (VStr id) d2 = Normal None.
Proof.
  intros Ht Hl Hne. destruct (newID_int now t n d1 s Ht) as (rnd & _ & _ & ->).
  eexists. split; [reflexivity |].
  assert (He : String.length (syms (encode_digits t)) = 8%nat)
    by (rewrite syms_length; reflexivity).
  apply decodeTimeIDr_delimiter_mismatch.
  - rewrite str_length_app. lia.
  - destruct d2 as [|c d2]; [| simpl; lia].
    destruct d1; [contradiction | discriminate Hl].
  - rewrite <- He at 1 2. rewrite substring_after_prefix, <- Hl, str_take_app.
    exact Hne.
Qed.

Lemma decodeTimeIDr_rejects_other_delimiter_witness :
  exists id, fst (newID NaN (int_value 1732621943086) 12 "-" (mkSfc32 1 2 3 4))
             = Normal (PStr id) /\
             decodeTimeIDr (VStr id) "_" = Normal None.
Proof.
  apply decodeTimeIDr_rejects_other_delimiter;
    [lia | reflexivity | discriminate].
Defined.

Lemma compare_app_same_length a : forall b x y,
  String.length a = String.length b -> String.compare a b <> Eq ->
  String.compare (a ++ x) (b ++ y) = String.compare a b.
Proof.
  induction a as [|c a IH]; intros [|c' b] x y Hl Hne; try discriminate Hl.
  - exfalso. apply Hne. reflexivity.
  - cbn [String.append String.compare] in *.
    destruct (Ascii.compare c c'); try reflexivity.
    apply IH; [simpl in Hl; lia | exact Hne].
Qed.

(** X22.  Identifiers sort by time: for t1 < t2 below 2^44 the identifier
    of t1 is byte-wise less than the identifier of t2, whatever the
    suffix lengths, delimiters and generator states. *)
Theorem newID_sorts_by_time
  (now1 now2 : number) (t1 t2 n1 n2 : Z) (d1 d2 : string) (s1 s2 : sfc32) :
  0 <= t1 < t2 -> t2 < 2 ^ 44 ->
  exists id1 id2,
    fst (newID now1 (int_value t1) n1 d1 s1) = Normal (PStr id1) /\
    fst (newID now2 (int_value t2) n2 d2 s2) = Normal (PStr id2) /\
    String.ltb id1 id2 = true.
Proof.
  intros H1 H2.
  destruct (newID_int now1 t1 n1 d1 s1 ltac:(lia)) as (r1 & _ & _ & ->).
  destruct (newID_int now2 t2 n2 d2 s2 ltac:(lia)) as (r2 & _ & _ & ->).
  do 2 eexists. split; [reflexivity |]. split; [reflexivity |].
  assert (E : String.compare (syms (encode_digits t1)) (syms (encode_digits t2)) = Lt).
  { rewrite compare_syms;
      [| reflexivity | apply encode_digits_are_digits | apply encode_digits_are_digits].
    rewrite !horner_encode_digits, !Z.mod_small by lia.
    apply Z.compare_lt_iff. lia. }
  unfold String.ltb. rewrite compare_app_same_length.
  - rewrite E. reflexivity.
  - rewrite !syms_length. reflexivity.
  - rewrite E. discriminate.
Qed.

Lemma newID_sorts_by_time_witness :
  exists id1 id2,
    fst (newID NaN (int_value 63) 12 "" (mkSfc32 1 2 3 4)) = Normal (PStr id1) /\
    fst (newID NaN (int_value 64) 21 "-" (mkSfc32 5 6 7 8)) = Normal (PStr id2) /\
    String.ltb id1 id2 = true.
Proof. apply newID_sorts_by_time; lia. Defined.

Lemma decodeTimeIDr_without_delimiter_agrees_with_decodeTimeID_witness :
  (decodeTimeIDr (VStr "0PDdKC4j-abcdefabcdef") "" = Normal None <->
   decodeTimeID (VStr "0PDdKC4j-abcdefabcdef") = None) /\
  (forall o, decodeTimeIDr (VStr "0PDdKC4j-abcdefabcdef") "" = Normal (Some o) ->
             decodeTimeID (VStr "0PDdKC4j-abcdefabcdef")
             = Some (mkTimeID (ts_number (date o)) (ts_number (time o))
                       (PStr (tIDr o)))).
Proof.
  apply decodeTimeIDr_without_delimiter_agrees_with_decodeTimeID. simpl. lia.
Defined.


(** ** Object factories *)

Lemma num_gtb0_not_ltb0 x : num_gtb0 x = true -> num_ltb0 x = false.
Proof.
  destruct x as [| | | q]; cbn; try discriminate; try reflexivity.
  intros H. apply negb_true_iff in H.
  destruct (Qle_bool 0 q) eqn:E; [reflexivity |].
  exfalso.
  assert (Hq : ~ (q <= 0)%Q) by (intros C; apply Qle_bool_iff in C; congruence).
  assert (H0 : ~ (0 <= q)%Q) by (intros C; apply Qle_bool_iff in C; congruence).
  apply Hq. apply Qlt_le_weak. apply Qnot_le_lt. exact H0.
Qed.

(** X23.  When [newTimeIDr] returns an object, [newID] on the same
    arguments, generator state and clock reading returns the object's
    [tIDr] and leaves the same generator state; the object's [tID] is
    what [encodeTime] returns for the argument (for the default Date
    when the argument is [undefined]) and its [randomness] what
    [newRND] returns. *)
Theorem newTimeIDr_agrees_with_newID
  (now : number) (v : value) (n : Z) (delimiter : string) (s s' : sfc32)
  (o : TimeIDr) :
  newTimeIDr now v n delimiter s = (Normal o, s') ->
  newID now v n delimiter s = (Normal (r_tIDr o), s') /\
  encodeTime (default_dateTime now v) = Normal (r_tID o) /\
  newRND n s = (r_randomness o, s').
Proof.
  unfold newTimeIDr, newID. cbv zeta.
  generalize (default_dateTime now v) as w. intros w H.
  destruct w as [| | b | x | str | tv |]; try discriminate H.
  - destruct (num_gtb0 x); [| discriminate H].
    destruct (encodeTime (VNum x)) as [tid |]; [| discriminate H].
    destruct (newRND n s) as [rnd s1]. injection H as <- <-.
    cbn [r_tIDr r_tID r_randomness new_TimeIDr]. auto.
  - change (encodeTime (VDate tv)) with (encodeTime (VNum tv)).
    destruct (encodeTime (VNum tv)) as [tid |]; [| discriminate H].
    destruct (newRND n s) as [rnd s1]. injection H as <- <-.
    cbn [r_tIDr r_tID r_randomness new_TimeIDr]. auto.
Qed.

Lemma newTimeIDr_agrees_with_newID_witness :
  newID (Fin (inject_Z 5)) VUndefined 12 "-" (mkSfc32 1 2 3 4)
  = (Normal (PStr "00000005-8000Z000y00O"),
     mkSfc32 56733723 56651013 (-2030040009) 7) /\
  encodeTime (default_dateTime (Fin (inject_Z 5)) VUndefined)
  = Normal (PStr "00000005") /\
  newRND 12 (mkSfc32 1 2 3 4)
  = (PStr "8000Z000y00O", mkSfc32 56733723 56651013 (-2030040009) 7).
Proof.
  apply (newTimeIDr_agrees_with_newID (Fin (inject_Z 5)) VUndefined 12 "-"
           (mkSfc32 1 2 3 4)
           (mkSfc32 56733723 56651013 (-2030040009) 7)
           (new_TimeIDr (Fin (inject_Z 5)) (Fin (inject_Z 5)) (PStr "00000005")
              (PStr "8000Z000y00O") "-")).
  vm_compute. reflexivity.
Defined.

(** X24.  The object factories require a number greater than 0: for a
    number that is neither greater nor less than 0 (0 and NaN)
    [newTimeID] and [newTimeIDr] throw, the latter without touching the
    generator, although [encodeTime] and [newID] return a string for it. *)
Theorem factories_reject_zero_and_NaN
  (now x : number) (n : Z) (delimiter : string) (s : sfc32) :
  num_gtb0 x = false -> num_ltb0 x = false ->
  newTimeID now (VNum x) = ThrowTypeError /\
  newTimeIDr now (VNum x) n delimiter s = (ThrowTypeError, s) /\
  (exists e, encodeTime (VNum x) = Normal (PStr e)) /\
  (exists id, fst (newID now (VNum x) n delimiter s) = Normal (PStr id)).
Proof.
  intros Hg Hl. unfold newTimeID, newTimeIDr, newID. cbv zeta.
  cbn [default_dateTime]. rewrite Hg.
  split; [reflexivity |]. split; [reflexivity |].
  destruct (encodeTime_body_returns_string (VNum x) x (or_introl eq_refl) Hl) as [e He].
  split; [exists e; exact He |].
  rewrite He.
  destruct (str_of_len_length _ _ (newRND_length n s)) as [rnd [Hr _]].
  destruct (newRND n s) as [p s1]. cbn [fst] in *. subst p.
  eexists. reflexivity.
Qed.

Lemma factories_reject_zero_and_NaN_witness :
  newTimeID NaN (int_value 0) = ThrowTypeError /\
  newTimeIDr NaN (int_value 0) 12 "" (mkSfc32 1 2 3 4)
  = (ThrowTypeError, mkSfc32 1 2 3 4) /\
  (exists e, encodeTime (int_value 0) = Normal (PStr e)) /\
  (exists id, fst (newID NaN (int_value 0) 12 "" (mkSfc32 1 2 3 4))
              = Normal (PStr id)).
Proof. apply factories_reject_zero_and_NaN; reflexivity. Defined.

Lemma new_Date_num_int t :
  - 8640000000000000 <= t <= 8640000000000000 ->
  new_Date_num (Fin (inject_Z t)) = Fin (inject_Z t).
Proof.
  intros H. unfold new_Date_num. rewrite Qtrunc_inject_Z.
  unfold Qle_bool, inject_Z. cbn [Qnum Qden].
  destruct (Z.leb_spec (-8640000000000000 * 1) (t * 1)); [| lia].
  destruct (Z.leb_spec (t * 1) (8640000000000000 * 1)); [| lia].
  reflexivity.
Qed.

(** X25.  For an integer 0 < t < 2^44, decoding the [tID] of the object
    [newTimeID t] gives back an object with the same date, time and
    [tID]. *)
Theorem decodeTimeID_of_newTimeID (now : number) (t : Z) :
  0 < t < 2 ^ 44 ->
  exists e,
    newTimeID now (int_value t)
    = Normal (mkTimeID (Fin (inject_Z t)) (Fin (inject_Z t)) (PStr e)) /\
    decodeTimeID (VStr e)
    = Some (mkTimeID (Fin (inject_Z t)) (Fin (inject_Z t)) (PStr e)).
Proof.
  intros Ht. exists (syms (encode_digits t)).
  unfold newTimeID, int_value. cbv zeta. cbn [default_dateTime].
  fold (int_value t). rewrite encodeTime_int by lia.
  assert (Hg : num_gtb0 (Fin (inject_Z t)) = true).
  { cbn [num_gtb0]. unfold Qle_bool, inject_Z. cbn [Qnum Qden].
    destruct (Z.leb_spec (t * 1) (0 * 1)); [lia | reflexivity]. }
  rewrite Hg, new_Date_num_int by lia.
  split; [reflexivity |].
  unfold decodeTimeID.
  rewrite decodeTime_syms;
    [| apply encode_digits_length | apply encode_digits_are_digits].
  rewrite horner_encode_digits, Z.mod_small by lia.
  rewrite (new_Date_decoded _ t eq_refl) by lia. reflexivity.
Qed.

Lemma decodeTimeID_of_newTimeID_witness :
  exists e,
    newTimeID NaN (int_value 1732621943086)
    = Normal (mkTimeID (Fin (inject_Z 1732621943086))
                (Fin (inject_Z 1732621943086)) (PStr e)) /\
    decodeTimeID (VStr e)
    = Some (mkTimeID (Fin (inject_Z 1732621943086))
              (Fin (inject_Z 1732621943086)) (PStr e)).
Proof. apply decodeTimeID_of_newTimeID. lia. Defined.
